(** * three_tangle.py: convex-roof three-tangle by multi-start minimisation

    A shallow embedding of [src/three_tangle.py].  NumPy arrays of floats are
    lists of real numbers ([R]): arithmetic is exact, IEEE rounding, signed
    zeros and NaN are outside the model.  The float sentinel [np.inf] is kept,
    through the extended reals [xreal].  Python exceptions are values of
    [exn]; code that can raise lives in the [result] monad.  The global
    pseudo-random generator is a stream of draws with a cursor, and the
    external solver [scipy.optimize.minimize] is a parameter of the driver. *)

From Stdlib Require Import String.
From Stdlib Require Import Reals Lra Lia List Arith Bool.
Import ListNotations.

Open Scope R_scope.

(** ** Exceptions and the error monad *)

Inductive exn : Type :=
| IndexError (index size : nat)   (* index out of bounds for an axis of that size *)
| ValueError                      (* shape mismatch, empty reduction *)
| SolverError.                    (* anything the external solver raises *)

Inductive result (A : Type) : Type :=
| Ok (a : A)
| Err (e : exn).

Arguments Ok {A} a.
Arguments Err {A} e.

Definition bind {A B : Type} (m : result A) (k : A -> result B) : result B :=
  match m with
  | Ok a => k a
  | Err e => Err e
  end.

Notation "x <- m ;; k" := (bind m (fun x => k))
  (at level 61, m at next level, right associativity).
Notation "' pat <- m ;; k" := (bind m (fun x => match x with pat => k end))
  (at level 61, pat pattern, m at next level, right associativity).

(** [for i in range(n): s = body(i, s)], stopping at the first exception. *)
Fixpoint for_each {S : Type} (l : list nat) (body : nat -> S -> result S) (s : S)
  : result S :=
  match l with
  | [] => Ok s
  | i :: l' => s' <- body i s ;; for_each l' body s'
  end.

Definition for_range {S : Type} (n : nat) (body : nat -> S -> result S) (s : S)
  : result S :=
  for_each (seq 0 n) body s.

(** ** Complex numbers (NumPy [complex128], exact) *)

Record complex : Type := Cx { re : R; im : R }.

Definition RtoC (a : R) : complex := Cx a 0.
Definition Ci : complex := Cx 0 1.                      (* the literal [1j] *)
Definition Cadd (z w : complex) : complex := Cx (re z + re w) (im z + im w).
Definition Csub (z w : complex) : complex := Cx (re z - re w) (im z - im w).
Definition Cmul (z w : complex) : complex :=
  Cx (re z * re w - im z * im w) (re z * im w + im z * re w).
Definition Cdiv (z w : complex) : complex :=
  let n := re w * re w + im w * im w in
  Cx ((re z * re w + im z * im w) / n) ((im z * re w - re z * im w) / n).
Definition Cconj (z : complex) : complex := Cx (re z) (- im z).
Definition Cabs (z : complex) : R := sqrt (re z * re z + im z * im z).
Definition Csqr (z : complex) : complex := Cmul z z.   (* [z ** 2] *)

Declare Scope complex_scope.
Delimit Scope complex_scope with C.
Bind Scope complex_scope with complex.
Infix "+" := Cadd : complex_scope.
Infix "-" := Csub : complex_scope.
Infix "*" := Cmul : complex_scope.

(** ** One-dimensional arrays *)

(** [a[i]] for a non-negative index. *)
Definition getitem {A : Type} (a : list A) (i : nat) : result A :=
  match nth_error a i with
  | Some v => Ok v
  | None => Err (IndexError i (length a))
  end.

Fixpoint update {A : Type} (a : list A) (i : nat) (v : A) : list A :=
  match a, i with
  | [], _ => []
  | _ :: a', O => v :: a'
  | x :: a', S i' => x :: update a' i' v
  end.

(** [a[i] = v] for a non-negative index. *)
Definition setitem {A : Type} (a : list A) (i : nat) (v : A) : result (list A) :=
  if i <? length a then Ok (update a i v) else Err (IndexError i (length a)).

(** [a[i:j]]: slices are clipped to the array, they never raise. *)
Definition slice {A : Type} (a : list A) (i j : nat) : list A :=
  firstn (j - i) (skipn i a).

Fixpoint zip_with {A B C : Type} (f : A -> B -> C) (a : list A) (b : list B)
  : list C :=
  match a, b with
  | x :: a', y :: b' => f x y :: zip_with f a' b'
  | _, _ => []
  end.

(** An elementwise binary operation on two 1-D arrays, with NumPy's
    broadcasting: equal shapes are combined pointwise, a shape [(1,)] is
    stretched to the other one, anything else is a shape error. *)
Definition broadcast {A B C : Type} (f : A -> B -> C) (a : list A) (b : list B)
  : result (list C) :=
  if length a =? length b then Ok (zip_with f a b)
  else match a, b with
       | [x], _ => Ok (map (f x) b)
       | _, [y] => Ok (map (fun x => f x y) a)
       | _, _ => Err ValueError
       end.

(** [np.sum] of a real array. *)
Definition np_sum (a : list R) : R := fold_left Rplus a 0.

(** [np.linalg.norm] of a complex vector. *)
Definition norm (d : list complex) : R :=
  sqrt (np_sum (map (fun z => re z * re z + im z * im z) d)).

(** ** The vector codec *)

(** [z[:len(z) // 2] + 1j * z[len(z) // 2:]] *)
Definition real_to_complex (z : list R) : result (list complex) :=
  let h := (length z / 2)%nat in
  broadcast Cadd (map RtoC (firstn h z))
                 (map (fun b => (Ci * RtoC b)%C) (skipn h z)).

(** [np.concatenate((np.real(z), np.imag(z)))] *)
Definition complex_to_real (z : list complex) : list R :=
  map re z ++ map im z.

(** ** The analytic tangle *)

Definition theoretical_tangle (phi : list complex) : result R :=
  phi0 <- getitem phi 0 ;;
  phi7 <- getitem phi 7 ;;
  phi1 <- getitem phi 1 ;;
  phi6 <- getitem phi 6 ;;
  phi2 <- getitem phi 2 ;;
  phi5 <- getitem phi 5 ;;
  phi4 <- getitem phi 4 ;;
  phi3 <- getitem phi 3 ;;
  let d1 := (Csqr phi0 * Csqr phi7 + Csqr phi1 * Csqr phi6 +
             Csqr phi2 * Csqr phi5 + Csqr phi4 * Csqr phi3)%C in
  let d2 := (phi0 * phi7 * phi3 * phi4 + phi0 * phi7 * phi5 * phi2 +
             phi0 * phi7 * phi6 * phi1 + phi3 * phi4 * phi5 * phi2 +
             phi3 * phi4 * phi6 * phi1 + phi5 * phi2 * phi6 * phi1)%C in
  let d3 := (phi0 * phi6 * phi5 * phi3 + phi7 * phi1 * phi2 * phi4)%C in
  let tau := 4 * Cabs (d1 - RtoC 2 * d2 + RtoC 4 * d3)%C in
  Ok tau.

(** ** Two-dimensional arrays *)

Definition zeros (n : nat) : list R := repeat 0 n.

Definition czeros2 (rows cols : nat) : list (list complex) :=
  repeat (repeat (RtoC 0) cols) rows.

(** [c[k, i]] *)
Definition getitem2 {A : Type} (c : list (list A)) (k i : nat) : result A :=
  row <- getitem c k ;; getitem row i.

(** The value [v] broadcast to the shape [(n,)] of an assignment target. *)
Definition broadcast_to {A : Type} (v : list A) (n : nat) : result (list A) :=
  if length v =? n then Ok v
  else match v with
       | [y] => Ok (repeat y n)
       | _ => Err ValueError
       end.

(** [c[i] = v]: the row index is checked first, then [v] is broadcast to the
    row. *)
Definition setrow {A : Type} (c : list (list A)) (i : nat) (v : list A)
  : result (list (list A)) :=
  row <- getitem c i ;;
  v' <- broadcast_to v (length row) ;;
  Ok (update c i v').

(** ** Objective and constraints *)

(** [objective(x, Nc, Np)] *)
Definition objective (x : list R) (Nc Np : nat) : result R :=
  let p := slice x 0 Np in
  for_range Np (fun i result =>
    let j := (Np + i * 2 * Nc)%nat in
    c <- real_to_complex (slice x j (j + 2 * Nc)) ;;
    p_i <- getitem p i ;;
    tau <- theoretical_tangle c ;;
    Ok (result + p_i * tau)) 0.

Section Closures.

(** The functions below are closures of [three_tangle]: they read its
    arguments [rho], [Nc] and [Np]. *)
Variable rho : list (list complex).
Variables Nc Np : nat.

(** [cons1(x)]: the weights sum to one. *)
Definition cons1 (x : list R) : R :=
  1 - np_sum (slice x 0 Np).

(** [cons2(x)]: every state vector has norm one. *)
Definition cons2 (x : list R) : result (list R) :=
  for_range Np (fun i result =>
    let j := (Np + i * 2 * Nc)%nat in
    d <- real_to_complex (slice x j (j + 2 * Nc)) ;;
    setitem result i (1 - norm d ^ 2)) (zeros Np).

(** The first loop of [cons3]: the decoded state vectors, row by row. *)
Definition cons3_states (x : list R) : result (list (list complex)) :=
  for_range Np (fun i c =>
    let j := (Np + i * 2 * Nc)%nat in
    d <- real_to_complex (slice x j (j + 2 * Nc)) ;;
    setrow c i d) (czeros2 Nc Nc).

(** The innermost loop of [cons3]: entry [(i, j)] of the mixture. *)
Definition cons3_entry (p : list R) (c : list (list complex)) (i j : nat)
  : result complex :=
  for_range Np (fun k res =>
    p_k <- getitem p k ;;
    c_ki <- getitem2 c k i ;;
    c_kj <- getitem2 c k j ;;
    Ok (res + RtoC p_k * c_ki * Cconj c_kj)%C) (RtoC 0).

(** The double loop of [cons3] over the entries of the matrix. *)
Definition cons3_entries (p : list R) (c : list (list complex))
  : result (list R * list R) :=
  for_range Nc (fun i acc =>
    for_range Nc (fun j '(reals, imags) =>
      res <- cons3_entry p c i j ;;
      rho_ij <- getitem2 rho i j ;;
      let res := (res - rho_ij)%C in
      reals <- setitem reals (i * Nc + j) (re res) ;;
      imags <- setitem imags (i * Nc + j) (im res) ;;
      Ok (reals, imags)) acc)
    (zeros (Nc ^ 2), zeros (Nc ^ 2)).

(** [cons3(x)]: the mixture of the states is [rho]. *)
Definition cons3 (x : list R) : result (list R) :=
  let p := slice x 0 Np in
  c <- cons3_states x ;;
  '(reals, imags) <- cons3_entries p c ;;
  Ok (reals ++ imags).

End Closures.

(** ** The solver interface *)

(** The float values of the result array: real numbers and the two
    infinities. *)
Inductive xreal : Type :=
| NInf
| Fin (r : R)
| PInf.

(** An entry of a float array that has been divided by a float: a real
    number, or not finite (nan or an infinity) after a division by zero. *)
Inductive fval : Type :=
| Finite (r : R)
| NonFinite.

(** The array [quotients] of the entries of an array divided by [divisor]:
    NumPy does not raise on a zero divisor, every entry is then nan or an
    infinity. *)
Definition finite_unless_zero (divisor : R) (quotients : list R) : list fval :=
  if Req_EM_T divisor 0
  then map (fun _ => NonFinite) quotients
  else map Finite quotients.

(** [v < 0] *)
Definition xlt0 (v : xreal) : bool :=
  match v with
  | NInf => true
  | Fin r => if Rlt_dec r 0 then true else false
  | PInf => false
  end.

(** [min] of two floats. *)
Definition xmin (v w : xreal) : xreal :=
  match v, w with
  | NInf, _ | _, NInf => NInf
  | PInf, u | u, PInf => u
  | Fin a, Fin b => Fin (Rmin a b)
  end.

(** [np.min]: an empty array has no minimum. *)
Definition np_min (a : list xreal) : result xreal :=
  match a with
  | [] => Err ValueError
  | v :: a' => Ok (fold_left xmin a' v)
  end.

Record solver_options : Type := {
  gtol : R;
  xtol : R;
  barrier_tol : R;
  maxiter : nat;
  sparse_jacobian : bool;
  factorization_method : string;
  initial_tr_radius : R;
  initial_constr_penalty : R;
  initial_barrier_parameter : R;
  initial_barrier_tolerance : R;
  verbose : nat
}.

Definition default_options : solver_options := {|
  gtol := 1e-8;
  xtol := 1e-8;
  barrier_tol := 1e-8;
  maxiter := 200;
  sparse_jacobian := false;
  factorization_method := "SVDFactorization"%string;
  initial_tr_radius := 1;
  initial_constr_penalty := 1;
  initial_barrier_parameter := 1e-8;
  initial_barrier_tolerance := 1;
  verbose := 3
|}.

(** [if solver_options is None: solver_options = {...}] *)
Definition options_or_default (given : option solver_options)
  : solver_options :=
  match given with
  | None => default_options
  | Some o => o
  end.

(** [NonlinearConstraint(fun, lb, ub)]; the scalar constraint [cons1] is a
    block of length one. *)
Record NonlinearConstraint : Type := {
  con_fun : list R -> result (list R);
  con_lb : list R;
  con_ub : list R
}.

(** [Bounds(lb, ub)] *)
Record Bounds : Type := {
  lower_bounds : list R;
  upper_bounds : list R
}.

(** The arguments of one call of [minimize]. *)
Record problem : Type := {
  pb_fun : list R -> result R;
  pb_x0 : list fval;
  pb_constraints : list NonlinearConstraint;
  pb_bounds : Bounds;
  pb_options : solver_options
}.

(** [try: body except: pass], for a body that assigns to one variable. *)
Definition try_except {A : Type} (body : result A) (unchanged : A) : A :=
  match body with
  | Ok a => a
  | Err _ => unchanged
  end.

(** ** The multi-start driver *)

Section Driver.

(** [scipy.optimize.minimize(..., method='trust-constr')]: it returns the
    value of the field ['fun'] of its result, or raises. *)
Variable minimize : problem -> result xreal.

(** The successive draws of the global generator [np.random.random]. *)
Variable rng : nat -> R.

(** [np.random.random(size=size)] with the generator at cursor [s]. *)
Definition random_sample (size : nat) (s : nat) : list R * nat :=
  (map rng (seq s size), (s + size)%nat).

(** The three constraint blocks, built once. *)
Definition constraints (rho : list (list complex)) (error : R) (Nc Np : nat)
  : list NonlinearConstraint :=
  [ {| con_fun := fun x => Ok [cons1 Np x];
       con_lb := [- error];
       con_ub := [error] |};
    {| con_fun := cons2 Nc Np;
       con_lb := repeat (- error) Np;
       con_ub := repeat error Np |};
    {| con_fun := cons3 rho Nc Np;
       con_lb := repeat (- error) (2 * Nc ^ 2);
       con_ub := repeat error (2 * Nc ^ 2) |} ].

(** Weights in [[0, 1]], coefficients in [[-1, 1]]. *)
Definition bounds (Nc Np : nat) : Bounds :=
  {| lower_bounds :=
       map (fun j => if (j <? Np)%nat then 0 else -1) (seq 0 (Np + 2 * Nc * Np));
     upper_bounds :=
       map (fun j => if (j <? Np)%nat then 1 else 1) (seq 0 (Np + 2 * Nc * Np)) |}.

(** The random starting point [x0] of one start.  The two divisions are not
    guarded in the source: a zero sum of the weights, or a zero norm of a
    drawn vector, leaves entries that are not finite in [x0]. *)
Definition initial_point (Nc Np : nat) (s : nat) : result (list fval * nat) :=
  let '(p, s) := random_sample Np s in
  (* p /= np.sum(p) *)
  let p := finite_unless_zero (np_sum p) (map (fun v => v / np_sum p) p) in
  for_range Np (fun k '(x0, s) =>
    let '(a, s) := random_sample Nc s in
    let a := map (fun u => u * 2 - 1) a in
    let '(b, s) := random_sample Nc s in
    let b := map (fun u => u * 2 - 1) b in
    c <- broadcast Cadd (map RtoC a) (map (fun v => (Ci * RtoC v)%C) b) ;;
    (* c /= np.linalg.norm(c); c = complex_to_real(c) *)
    let n := norm c in
    let c := map (fun z => Cdiv z (RtoC n)) c in
    let c := finite_unless_zero n (complex_to_real c) in
    Ok (x0 ++ c, s)) (p, s).

(** The call of the solver on one starting point. *)
Definition solve (rho : list (list complex)) (error : R) (Nc Np : nat)
    (options : solver_options) (x0 : list fval) : result xreal :=
  minimize {| pb_fun := fun x => objective x Nc Np;
              pb_x0 := x0;
              pb_constraints := constraints rho error Nc Np;
              pb_bounds := bounds Nc Np;
              pb_options := options |}.

(** The body of the loop over the starts. *)
Definition start (rho : list (list complex)) (error : R) (Nc Np : nat)
    (options : solver_options) (j : nat) (st : list xreal * nat)
  : result (list xreal * nat) :=
  let '(tangles, s) := st in
  '(x0, s) <- initial_point Nc Np s ;;
  let tangles :=
    try_except (fun_ <- solve rho error Nc Np options x0 ;;
                setitem tangles j fun_) tangles in
  t_j <- getitem tangles j ;;
  tangles <- (if xlt0 t_j then setitem tangles j PInf else Ok tangles) ;;
  Ok (tangles, s).

(** The array [tangles] when the loop is over. *)
Definition run_starts (rho : list (list complex)) (N : nat) (error : R)
    (Nc Np : nat) (options : solver_options) : result (list xreal) :=
  '(tangles, _) <-
    for_range N (start rho error Nc Np options) (repeat (Fin 0) N, 0%nat) ;;
  Ok tangles.

(** [three_tangle(rho, N, error, Nc, Np, solver_options)] *)
Definition three_tangle (rho : list (list complex)) (N : nat) (error : R)
    (Nc Np : nat) (solver_options : option solver_options) : result xreal :=
  let options := options_or_default solver_options in
  tangles <- run_starts rho N error Nc Np options ;;
  np_min tangles.

(** [three_tangle(rho)], with the default arguments. *)
Definition three_tangle_default (rho : list (list complex)) : result xreal :=
  three_tangle rho 10 1e-30 8 4 None.

End Driver.

(** ** Definitions used by the statements *)

(** The GHZ state [(|000> + |111>) / sqrt 2]. *)
Definition ghz : list complex :=
  [ RtoC (1 / sqrt 2); RtoC 0; RtoC 0; RtoC 0;
    RtoC 0; RtoC 0; RtoC 0; RtoC (1 / sqrt 2) ].

(** The parameter vector of a decomposition: the weights, then every state
    vector through the codec. *)
Definition parameter_vector (p : list R) (cs : list (list complex)) : list R :=
  p ++ concat (map complex_to_real cs).

(** The sum of a list of complex numbers. *)
Definition Csum (l : list complex) : complex := fold_right Cadd (RtoC 0) l.

(** [sum_k p_k * c_k[i] * conj(c_k[j])] over the pairs of a weight and its
    state: the entry [(i, j)] of the weighted sum of the outer products. *)
Definition outer_product_sum (p : list R) (cs : list (list complex)) (i j : nat)
  : complex :=
  Csum (map (fun wc => (RtoC (fst wc) * nth i (snd wc) (RtoC 0)
                                      * Cconj (nth j (snd wc) (RtoC 0)))%C)
            (combine p cs)).

(** The density matrix built directly from weights and states. *)
Definition mixture_matrix (p : list R) (cs : list (list complex)) (Nc : nat)
  : list (list complex) :=
  map (fun i => map (fun j => outer_product_sum p cs i j) (seq 0 Nc)) (seq 0 Nc).

(** What the innermost loop of [cons3] has accumulated after [n] states. *)
Fixpoint mixture (p : list R) (cs : list (list complex)) (n i j : nat) : complex :=
  match n with
  | O => RtoC 0
  | S k =>
      (mixture p cs k i j +
       RtoC (nth k p 0) * nth i (nth k cs []) (RtoC 0)
                        * Cconj (nth j (nth k cs []) (RtoC 0)))%C
  end.

(** Entry [idx] (row-major) of the difference between the mixture of the
    rows of [c] and [rho]. *)
Definition cons3_residual (rho : list (list complex)) (p : list R)
    (c : list (list complex)) (Nc Np idx : nat) : complex :=
  (mixture p c Np (idx / Nc) (idx mod Nc) -
   nth (idx mod Nc) (nth (idx / Nc) rho []) (RtoC 0))%C.

(** An array of [total] copies of [z] whose first [n] entries have been set
    to the values of [g]. *)
Definition filled {A : Type} (z : A) (g : nat -> A) (n total : nat) : list A :=
  map g (seq 0 n) ++ repeat z (total - n).

(** The number of draws of one start. *)
Definition draws (Nc Np : nat) : nat := (Np + Np * (Nc + Nc))%nat.

(** The starting point of start [j]: the generator has been advanced by the
    starts before it. *)
Definition start_point (rng : nat -> R) (Nc Np j : nat) : list fval :=
  match initial_point rng Nc Np (j * draws Nc Np) with
  | Ok (x0, _) => x0
  | Err _ => []
  end.

(** What the solver does on start [j]. *)
Definition start_outcome (minimize : problem -> result xreal) (rng : nat -> R)
    (rho : list (list complex)) (error : R) (Nc Np : nat)
    (options : solver_options) (j : nat) : result xreal :=
  solve minimize rho error Nc Np options (start_point rng Nc Np j).

(** The entry of [tangles] after a start, from the outcome of the solver and
    the entry before the start. *)
Definition recorded (outcome : result xreal) (previous : xreal) : xreal :=
  let v := match outcome with
           | Ok fun_ => fun_
           | Err _ => previous
           end in
  if xlt0 v then PInf else v.

(** A solver that raises on every call. *)
Definition failing_solver (pb : problem) : result xreal := Err SolverError.

(** A solver that reports the same value on every call. *)
Definition constant_solver (v : xreal) (pb : problem) : result xreal := Ok v.

(** An [n]-by-[n] array. *)
Definition square {A : Type} (n : nat) (m : list (list A)) : Prop :=
  length m = n /\ Forall (fun row => length row = n) m.

(** The state-decoding loop after [n] rows: the buffer keeps its shape and
    rows [0 .. n-1] hold the decoded states. *)
Definition states_invariant (Nc Np : nat) (x : list R) (n : nat)
    (c : list (list complex)) : Prop :=
  length c = Nc /\
  (forall k, (k < Nc)%nat -> length (nth k c []) = Nc) /\
  (forall k, (k < n)%nat ->
     real_to_complex (slice x (Np + k * 2 * Nc) (Np + k * 2 * Nc + 2 * Nc))
     = Ok (nth k c [])).

(** A non-negative real number or plus infinity. *)
Definition nonneg_or_inf (v : xreal) : Prop :=
  match v with
  | NInf => False
  | Fin r => 0 <= r
  | PInf => True
  end.

(** A negative float. *)
Definition negative (v : xreal) : Prop :=
  match v with
  | NInf => True
  | Fin r => r < 0
  | PInf => False
  end.

(** ** Further definitions used by the statements *)

Definition Copp (z : complex) : complex := Cx (- re z) (- im z).

(** The polynomial [d1 - 2 * d2 + 4 * d3] of [theoretical_tangle], as a
    function of the eight amplitudes. *)
Definition tangle_polynomial (phi0 phi1 phi2 phi3 phi4 phi5 phi6 phi7 : complex)
  : complex :=
  let d1 := (Csqr phi0 * Csqr phi7 + Csqr phi1 * Csqr phi6 +
             Csqr phi2 * Csqr phi5 + Csqr phi4 * Csqr phi3)%C in
  let d2 := (phi0 * phi7 * phi3 * phi4 + phi0 * phi7 * phi5 * phi2 +
             phi0 * phi7 * phi6 * phi1 + phi3 * phi4 * phi5 * phi2 +
             phi3 * phi4 * phi6 * phi1 + phi5 * phi2 * phi6 * phi1)%C in
  let d3 := (phi0 * phi6 * phi5 * phi3 + phi7 * phi1 * phi2 * phi4)%C in
  (d1 - RtoC 2 * d2 + RtoC 4 * d3)%C.

(** The amplitudes [phi[4 i + m] = a[i] * psi[m]] of the product of a state
    [a] of the first qubit with a state [psi] of the other two. *)
Definition product_state (a0 a1 : complex) (psi0 psi1 psi2 psi3 : complex)
  : list complex :=
  [ (a0 * psi0)%C; (a0 * psi1)%C; (a0 * psi2)%C; (a0 * psi3)%C;
    (a1 * psi0)%C; (a1 * psi1)%C; (a1 * psi2)%C; (a1 * psi3)%C ].

(** The amplitudes after the exchange of the last two qubits, and of the
    first two. *)
Definition swap_last (phi : list complex) : list complex :=
  map (fun k => nth k phi (RtoC 0)) [0; 2; 1; 3; 4; 6; 5; 7]%nat.

Definition swap_first (phi : list complex) : list complex :=
  map (fun k => nth k phi (RtoC 0)) [0; 1; 4; 5; 2; 3; 6; 7]%nat.

(** The tangle of a vector of at least eight amplitudes. *)
Definition tangle_value (phi : list complex) : R :=
  4 * Cabs (tangle_polynomial
              (nth 0 phi (RtoC 0)) (nth 1 phi (RtoC 0)) (nth 2 phi (RtoC 0))
              (nth 3 phi (RtoC 0)) (nth 4 phi (RtoC 0)) (nth 5 phi (RtoC 0))
              (nth 6 phi (RtoC 0)) (nth 7 phi (RtoC 0))).

(** Entry [(i, j)] of [rho]. *)
Definition entry (rho : list (list complex)) (i j : nat) : complex :=
  nth j (nth i rho []) (RtoC 0).

(** The weights of a starting point drawn with the generator at cursor [s]:
    [Np] draws divided by their sum. *)
Definition start_weights (rng : nat -> R) (Np s : nat) : list R :=
  map (fun v => v / np_sum (map rng (seq s Np))) (map rng (seq s Np)).

(** The complex vector [a + 1j * b] drawn with the generator at cursor [s],
    before it is normalised. *)
Definition raw_state (rng : nat -> R) (Nc s : nat) : list complex :=
  zip_with Cadd
    (map RtoC (map (fun u => u * 2 - 1) (map rng (seq s Nc))))
    (map (fun v => (Ci * RtoC v)%C)
         (map (fun u => u * 2 - 1) (map rng (seq (s + Nc) Nc)))).

(** The same vector divided by its norm. *)
Definition start_state (rng : nat -> R) (Nc s : nat) : list complex :=
  map (fun z => Cdiv z (RtoC (norm (raw_state rng Nc s)))) (raw_state rng Nc s).

(** The states of a starting point drawn with the generator at cursor [s]:
    state [k] is drawn after the weights and the states before it. *)
Definition start_states (rng : nat -> R) (Nc Np s : nat) : list (list complex) :=
  map (fun k => start_state rng Nc (s + Np + k * (Nc + Nc))) (seq 0 Np).

(** The block that a state drawn with the generator at cursor [s] adds to
    the starting point. *)
Definition start_block (rng : nat -> R) (Nc s : nat) : list fval :=
  finite_unless_zero (norm (raw_state rng Nc s))
                     (complex_to_real (start_state rng Nc s)).

(** [v <= w] on floats. *)
Definition xle (v w : xreal) : Prop :=
  match v, w with
  | NInf, _ => True
  | _, PInf => True
  | Fin a, Fin b => a <= b
  | _, _ => False
  end.

(** ** Loops and arrays *)

Lemma for_each_app {S : Type} (body : nat -> S -> result S) (l1 l2 : list nat) (s : S) :
  for_each (l1 ++ l2) body s = (s' <- for_each l1 body s ;; for_each l2 body s').
Proof.
  revert s; induction l1 as [| i l1 IH]; intros s; simpl; [reflexivity |].
  destruct (body i s) as [s' | e]; simpl; [apply IH | reflexivity].
Qed.

Lemma for_range_S {S : Type} (body : nat -> S -> result S) (n : nat) (s : S) :
  for_range (Datatypes.S n) body s = (s' <- for_range n body s ;; body n s').
Proof.
  unfold for_range. rewrite seq_S, for_each_app. simpl.
  destruct (for_each (seq 0 n) body s) as [s' | e]; simpl; [| reflexivity].
  destruct (body n s'); reflexivity.
Qed.

(** A loop whose body keeps an invariant (indexed by the iteration count)
    and never raises under it runs to the end. *)
Lemma for_range_invariant {S : Type} (I : nat -> S -> Prop)
    (body : nat -> S -> result S) (n : nat) (s : S) :
  I 0%nat s ->
  (forall i t, (i < n)%nat -> I i t -> exists t', body i t = Ok t' /\ I (Datatypes.S i) t') ->
  exists t, for_range n body s = Ok t /\ I n t.
Proof.
  intros H0 Hstep. induction n as [| n IH].
  - exists s. split; [reflexivity | assumption].
  - destruct IH as [t [Ht HI]]; [intros i u Hi; apply Hstep; lia |].
    destruct (Hstep n t (Nat.lt_succ_diag_r n) HI) as [t' [Hb HI']].
    exists t'. rewrite for_range_S, Ht. simpl. split; assumption.
Qed.

Lemma update_length {A : Type} (a : list A) (i : nat) (v : A) :
  length (update a i v) = length a.
Proof.
  revert i; induction a as [| x a IH]; intros [| i]; simpl; auto.
Qed.

Lemma nth_update_eq {A : Type} (a : list A) (i : nat) (v d : A) :
  (i < length a)%nat -> nth i (update a i v) d = v.
Proof.
  revert i; induction a as [| x a IH]; intros [| i] H; simpl in *; try lia; auto.
  apply IH; lia.
Qed.

Lemma nth_update_neq {A : Type} (a : list A) (i j : nat) (v d : A) :
  i <> j -> nth j (update a i v) d = nth j a d.
Proof.
  revert i j; induction a as [| x a IH]; intros [| i] [| j] H; simpl; auto; try lia.
Qed.

Lemma update_same {A : Type} (a : list A) (i : nat) (d : A) :
  update a i (nth i a d) = a.
Proof.
  revert i; induction a as [| x a IH]; intros [| i]; simpl; auto.
  f_equal; apply IH.
Qed.

Lemma getitem_nth {A : Type} (a : list A) (i : nat) (d : A) :
  (i < length a)%nat -> getitem a i = Ok (nth i a d).
Proof.
  intros H. unfold getitem.
  rewrite (nth_error_nth' a d H). reflexivity.
Qed.

Lemma getitem_out {A : Type} (a : list A) (i : nat) :
  (length a <= i)%nat -> getitem a i = Err (IndexError i (length a)).
Proof.
  intros H. unfold getitem.
  apply nth_error_None in H. rewrite H. reflexivity.
Qed.

Lemma setitem_in {A : Type} (a : list A) (i : nat) (v : A) :
  (i < length a)%nat -> setitem a i v = Ok (update a i v).
Proof.
  intros H. unfold setitem.
  apply Nat.ltb_lt in H. rewrite H. reflexivity.
Qed.

Lemma slice_length {A : Type} (a : list A) (i j n : nat) :
  (j = i + n)%nat -> (j <= length a)%nat -> length (slice a i j) = n.
Proof.
  intros -> H. unfold slice.
  rewrite length_firstn, length_skipn. lia.
Qed.

Lemma slice_app_skip {A : Type} (a b : list A) (i j : nat) :
  slice (a ++ b) (length a + i) (length a + j) = slice b i j.
Proof.
  unfold slice. rewrite skipn_app.
  rewrite skipn_all2 by lia. simpl.
  replace (length a + i - length a)%nat with i by lia.
  replace (length a + j - (length a + i))%nat with (j - i)%nat by lia.
  reflexivity.
Qed.

Lemma slice_prefix {A : Type} (a b : list A) :
  slice (a ++ b) 0 (length a) = a.
Proof.
  unfold slice. simpl. rewrite Nat.sub_0_r.
  rewrite firstn_app, Nat.sub_diag, firstn_all. simpl. apply app_nil_r.
Qed.

(** ** The codec *)

Lemma Cadd_1j (a b : R) : (RtoC a + Ci * RtoC b)%C = Cx a b.
Proof.
  unfold Cadd, Cmul, RtoC, Ci. simpl. f_equal; ring.
Qed.

Lemma zip_with_1j (xs ys : list R) :
  zip_with Cadd (map RtoC xs) (map (fun b => (Ci * RtoC b)%C) ys) = zip_with Cx xs ys.
Proof.
  revert ys; induction xs as [| a xs IH]; intros [| b ys]; simpl; auto.
  rewrite Cadd_1j, IH. reflexivity.
Qed.

Lemma half_double (n : nat) : ((n + n) / 2 = n)%nat.
Proof.
  replace (n + n)%nat with (n * 2)%nat by lia.
  apply Nat.div_mul. discriminate.
Qed.

(** Decoding the concatenation of [k] real parts and [k] imaginary parts. *)
Lemma real_to_complex_app (xs ys : list R) :
  length xs = length ys ->
  real_to_complex (xs ++ ys) = Ok (zip_with Cx xs ys).
Proof.
  intros H. unfold real_to_complex.
  rewrite length_app, <- H, half_double.
  rewrite firstn_app, Nat.sub_diag, firstn_all. simpl. rewrite app_nil_r.
  rewrite skipn_app, Nat.sub_diag, skipn_all. simpl.
  unfold broadcast. rewrite !length_map, H, Nat.eqb_refl.
  rewrite zip_with_1j. reflexivity.
Qed.

Lemma zip_with_re_im (w : list complex) :
  zip_with Cx (map re w) (map im w) = w.
Proof.
  induction w as [| [a b] w IH]; simpl; [reflexivity |].
  rewrite IH. reflexivity.
Qed.

Lemma zip_with_Cx_parts (xs ys : list R) :
  length xs = length ys ->
  map re (zip_with Cx xs ys) = xs /\ map im (zip_with Cx xs ys) = ys.
Proof.
  revert ys; induction xs as [| a xs IH]; intros [| b ys] H; simpl in *;
    try discriminate; auto.
  destruct (IH ys) as [Hre Him]; [lia |].
  rewrite Hre, Him. auto.
Qed.

Lemma real_to_complex_to_real (w : list complex) :
  real_to_complex (complex_to_real w) = Ok w.
Proof.
  unfold complex_to_real.
  rewrite real_to_complex_app by (rewrite !length_map; reflexivity).
  rewrite zip_with_re_im. reflexivity.
Qed.

Lemma even_length_halves {A : Type} (v : list A) :
  Nat.Even (length v) ->
  exists xs ys, v = xs ++ ys /\ length xs = length ys.
Proof.
  intros [k Hk].
  exists (firstn k v), (skipn k v). split.
  - symmetry. apply firstn_skipn.
  - rewrite length_firstn, length_skipn. lia.
Qed.

(** C4: the codec is a round-trip pair.  Every real vector of even length is
    decoded without error to a complex vector that encodes back to it, and
    every complex vector, once encoded, is decoded back to itself.  The
    equalities are exact in real arithmetic. *)
Theorem codec_round_trip :
  (forall v : list R, Nat.Even (length v) ->
     exists w, real_to_complex v = Ok w /\ complex_to_real w = v) /\
  (forall w : list complex, real_to_complex (complex_to_real w) = Ok w).
Proof.
  split; [| exact real_to_complex_to_real].
  intros v Hv.
  destruct (even_length_halves v Hv) as [xs [ys [-> Hlen]]].
  exists (zip_with Cx xs ys). split.
  - apply real_to_complex_app; assumption.
  - unfold complex_to_real.
    destruct (zip_with_Cx_parts xs ys Hlen) as [-> ->]. reflexivity.
Qed.

(** C4, at a concrete vector. *)
Lemma codec_round_trip_witness :
  exists w, real_to_complex [1; 2] = Ok w /\ complex_to_real w = [1; 2].
Proof.
  apply (proj1 codec_round_trip [1; 2]).
  exists 1%nat. reflexivity.
Defined.

Lemma half_odd (k : nat) : ((2 * k + 1) / 2 = k)%nat.
Proof.
  symmetry. apply (Nat.div_unique (2 * k + 1) 2 k 1); lia.
Qed.

Lemma broadcast_mismatch {A B C : Type} (f : A -> B -> C) (a : list A) (b : list B) :
  length a <> length b -> length a <> 1%nat -> length b <> 1%nat ->
  broadcast f a b = Err ValueError.
Proof.
  intros Hab Ha Hb. unfold broadcast.
  apply Nat.eqb_neq in Hab. rewrite Hab.
  destruct a as [| x [| x' a]]; destruct b as [| y [| y' b]]; simpl in *;
    try reflexivity; try congruence.
Qed.

(** C8 as stated fails: a vector of length three is decoded, by broadcasting
    its one-element first half over the two-element second half. *)
Lemma real_to_complex_odd_returns :
  Nat.Odd (length [1; 2; 3]) /\
  real_to_complex [1; 2; 3] = Ok [Cx 1 2; Cx 1 3].
Proof.
  split.
  - exists 1%nat. reflexivity.
  - unfold real_to_complex, broadcast. simpl.
    rewrite !Cadd_1j. reflexivity.
Qed.

(** C8, amended: on a real vector of odd length the decoder raises (a shape
    error) exactly when the length is at least five; at the odd lengths one
    and three broadcasting makes it return a complex vector: the empty
    vector at length one, and [[z0 + 1j z1, z0 + 1j z2]] at length three. *)
Theorem real_to_complex_odd (z : list R) :
  Nat.Odd (length z) ->
  (real_to_complex z = Err ValueError <-> (5 <= length z)%nat) /\
  (length z = 1%nat -> real_to_complex z = Ok []) /\
  (length z = 3%nat ->
   real_to_complex z
   = Ok [Cx (nth 0 z 0) (nth 1 z 0); Cx (nth 0 z 0) (nth 2 z 0)]).
Proof.
  intros [k Hk].
  assert (H1 : length z = 1%nat -> real_to_complex z = Ok []).
  { intros H. destruct z as [| a [| b z]]; simpl in H; try lia. reflexivity. }
  assert (H3 : length z = 3%nat ->
               real_to_complex z
               = Ok [Cx (nth 0 z 0) (nth 1 z 0); Cx (nth 0 z 0) (nth 2 z 0)]).
  { intros H. destruct z as [| a [| b [| c [| d z]]]]; simpl in H; try lia.
    unfold real_to_complex, broadcast. simpl.
    rewrite !Cadd_1j. reflexivity. }
  split; [| split; assumption]. split.
  - intros Herr.
    destruct k as [| [| k]]; [| | lia].
    + rewrite H1 in Herr by lia. discriminate Herr.
    + rewrite H3 in Herr by lia. discriminate Herr.
  - intros H5. unfold real_to_complex.
    rewrite Hk, half_odd.
    apply broadcast_mismatch;
      rewrite !length_map, ?length_firstn, ?length_skipn; lia.
Qed.

(** C8 amended, at a vector of length five. *)
Lemma real_to_complex_odd_witness :
  (real_to_complex [1; 2; 3; 4; 5] = Err ValueError
   <-> (5 <= length [1; 2; 3; 4; 5])%nat) /\
  (length [1; 2; 3; 4; 5] = 1%nat -> real_to_complex [1; 2; 3; 4; 5] = Ok []) /\
  (length [1; 2; 3; 4; 5] = 3%nat ->
   real_to_complex [1; 2; 3; 4; 5]
   = Ok [Cx (nth 0 [1; 2; 3; 4; 5] 0) (nth 1 [1; 2; 3; 4; 5] 0);
         Cx (nth 0 [1; 2; 3; 4; 5] 0) (nth 2 [1; 2; 3; 4; 5] 0)]).
Proof.
  apply (real_to_complex_odd [1; 2; 3; 4; 5]).
  exists 2%nat. reflexivity.
Defined.

(** What a loop keeps at every iteration that returns, it has at the end. *)
Lemma for_range_preserves {S : Type} (I : S -> Prop)
    (body : nat -> S -> result S) (n : nat) (s t : S) :
  I s ->
  (forall i u u', (i < n)%nat -> I u -> body i u = Ok u' -> I u') ->
  for_range n body s = Ok t -> I t.
Proof.
  intros H0. revert t. induction n as [| n IH]; intros t Hstep Hrun.
  - unfold for_range in Hrun. simpl in Hrun. injection Hrun as <-. assumption.
  - rewrite for_range_S in Hrun.
    destruct (for_range n body s) as [u | e] eqn:Hn; simpl in Hrun; [| discriminate].
    apply (Hstep n u t); [lia | | assumption].
    apply IH; [| reflexivity]. intros i v v' Hi. apply Hstep. lia.
Qed.

Lemma zip_with_length {A B C : Type} (f : A -> B -> C) (a : list A) (b : list B) :
  length a = length b -> length (zip_with f a b) = length a.
Proof.
  revert b; induction a as [| x a IH]; intros [| y b] H; simpl in *;
    try discriminate; auto.
Qed.

(** A real vector of length [2 k] is decoded to a complex vector of length
    [k]. *)
Lemma real_to_complex_even (v : list R) (k : nat) :
  length v = (2 * k)%nat ->
  exists w, real_to_complex v = Ok w /\ length w = k.
Proof.
  intros Hv.
  destruct (even_length_halves v) as [xs [ys [-> Hlen]]]; [exists k; assumption |].
  exists (zip_with Cx xs ys). split.
  - apply real_to_complex_app; assumption.
  - rewrite zip_with_length by assumption.
    rewrite length_app in Hv. lia.
Qed.

(** ** The analytic tangle *)

Lemma Cabs_nonneg (z : complex) : 0 <= Cabs z.
Proof. unfold Cabs. apply sqrt_pos. Qed.

Lemma Cabs_real (z : complex) (a : R) :
  re z = a -> im z = 0 -> 0 <= a -> Cabs z = a.
Proof.
  intros Hre Him Ha. unfold Cabs. rewrite Hre, Him.
  replace (a * a + 0 * 0) with (a * a) by ring.
  apply sqrt_square; assumption.
Qed.

Lemma inv_sqrt2_sqr : (1 / sqrt 2) * (1 / sqrt 2) = 1 / 2.
Proof.
  assert (H : sqrt 2 * sqrt 2 = 2) by (apply sqrt_sqrt; lra).
  assert (H0 : sqrt 2 <> 0) by (intros E; rewrite E in H; lra).
  field_simplify; [| assumption].
  replace (sqrt 2 ^ 2) with (sqrt 2 * sqrt 2) by ring.
  rewrite H. reflexivity.
Qed.

Lemma theoretical_tangle_ghz : theoretical_tangle ghz = Ok 1.
Proof.
  unfold theoretical_tangle, ghz. simpl. f_equal.
  generalize inv_sqrt2_sqr. generalize (1 / sqrt 2). intros s Hs.
  rewrite (Cabs_real _ (1 / 4)); [lra | | | lra].
  - simpl. rewrite !Hs. field.
  - simpl. ring.
Qed.

(** C6: the analytic tangle of the GHZ state is 1 within [1e-6] (it is
    exactly 1 in real arithmetic). *)
Theorem ghz_tangle :
  exists tau, theoretical_tangle ghz = Ok tau /\ Rabs (tau - 1) <= 1e-6.
Proof.
  exists 1. split; [exact theoretical_tangle_ghz |].
  replace (1 - 1) with 0 by ring. rewrite Rabs_R0. lra.
Qed.

Ltac bind_cases H :=
  repeat match type of H with
         | bind ?m _ = Ok _ =>
             let E := fresh "E" in
             destruct m eqn:E; simpl in H; [| discriminate H]
         end.

Lemma theoretical_tangle_nonneg (phi : list complex) (tau : R) :
  theoretical_tangle phi = Ok tau -> 0 <= tau.
Proof.
  unfold theoretical_tangle. intros H. bind_cases H.
  injection H as <-.
  apply Rmult_le_pos; [lra | apply Cabs_nonneg].
Qed.

Lemma theoretical_tangle_returns (phi : list complex) :
  (8 <= length phi)%nat -> exists tau, theoretical_tangle phi = Ok tau.
Proof.
  intros H. unfold theoretical_tangle.
  rewrite !(getitem_nth phi _ (RtoC 0)) by lia. simpl.
  eexists. reflexivity.
Qed.

(** ** The objective *)

Lemma getitem_slice_prefix (x : list R) (n i : nat) (v : R) :
  getitem (slice x 0 n) i = Ok v -> (i < n)%nat /\ v = nth i x 0.
Proof.
  unfold getitem, slice. simpl. rewrite Nat.sub_0_r, nth_error_firstn.
  destruct (i <? n)%nat eqn:Hi; [| discriminate].
  destruct (nth_error x i) as [u |] eqn:Hu; [| discriminate].
  intros [= <-]. split; [apply Nat.ltb_lt; assumption |].
  symmetry. apply nth_error_nth. assumption.
Qed.

Lemma objective_nonneg (x : list R) (Nc Np : nat) (v : R) :
  (forall i, (i < Np)%nat -> 0 <= nth i x 0) ->
  objective x Nc Np = Ok v -> 0 <= v.
Proof.
  intros Hp. unfold objective.
  apply (for_range_preserves (fun r => 0 <= r)); [lra |].
  intros i u u' Hi Hu H. bind_cases H.
  injection H as <-.
  apply getitem_slice_prefix in E0 as [_ ->].
  apply theoretical_tangle_nonneg in E1.
  specialize (Hp i Hi). nra.
Qed.

Lemma objective_returns (x : list R) (Nc Np : nat) :
  (8 <= Nc)%nat -> length x = (Np + 2 * Nc * Np)%nat ->
  exists v, objective x Nc Np = Ok v.
Proof.
  intros HNc Hx. unfold objective.
  destruct (for_range_invariant (fun _ (_ : R) => True)
              (fun i result =>
                 let j := (Np + i * 2 * Nc)%nat in
                 c <- real_to_complex (slice x j (j + 2 * Nc)) ;;
                 p_i <- getitem (slice x 0 Np) i ;;
                 tau <- theoretical_tangle c ;;
                 Ok (result + p_i * tau)) Np 0) as [v [Hv _]]; [exact I | |].
  - intros i t Hi _. cbv zeta.
    destruct (real_to_complex_even (slice x (Np + i * 2 * Nc) (Np + i * 2 * Nc + 2 * Nc)) Nc)
      as [w [-> Hw]]; [apply slice_length; nia |].
    simpl. rewrite (getitem_nth _ i 0); [| rewrite (slice_length x 0 Np Np); lia].
    simpl. destruct (theoretical_tangle_returns w) as [tau ->]; [lia |].
    simpl. eexists. split; [reflexivity | exact I].
  - exists v. exact Hv.
Qed.

(** C10: the analytic tangle of eight amplitudes is a non-negative real
    number (four times a modulus), and so the objective, whenever it returns,
    is non-negative at a parameter vector whose [Np] weights are
    non-negative; it does return at a parameter vector of the right length
    when the states have at least eight components. *)
Theorem tangle_objective_nonneg :
  (forall phi : list complex, length phi = 8%nat ->
     exists tau, theoretical_tangle phi = Ok tau /\ 0 <= tau) /\
  (forall (x : list R) (Nc Np : nat),
     (forall i, (i < Np)%nat -> 0 <= nth i x 0) ->
     (forall v, objective x Nc Np = Ok v -> 0 <= v) /\
     ((8 <= Nc)%nat -> length x = (Np + 2 * Nc * Np)%nat ->
      exists v, objective x Nc Np = Ok v /\ 0 <= v)).
Proof.
  split.
  - intros phi Hphi.
    destruct (theoretical_tangle_returns phi) as [tau Htau]; [lia |].
    exists tau. split; [assumption |].
    apply (theoretical_tangle_nonneg phi). assumption.
  - intros x Nc Np Hp. split.
    + intros v. apply objective_nonneg. assumption.
    + intros HNc Hx.
      destruct (objective_returns x Nc Np HNc Hx) as [v Hv].
      exists v. split; [assumption |].
      apply (objective_nonneg x Nc Np); assumption.
Qed.

(** C10, at one weight and the zero state. *)
Lemma tangle_objective_nonneg_witness :
  exists v, objective (1 :: repeat 0 16) 8 1 = Ok v /\ 0 <= v.
Proof.
  apply (proj2 tangle_objective_nonneg (1 :: repeat 0 16) 8%nat 1%nat).
  - intros [| i] Hi; simpl; [lra | lia].
  - lia.
  - reflexivity.
Defined.

(** ** The reconstruction constraint *)

(** A loop that computes a known sequence of states. *)
Lemma for_range_eq {S : Type} (f : nat -> S) (body : nat -> S -> result S) (n : nat) :
  (forall i, (i < n)%nat -> body i (f i) = Ok (f (Datatypes.S i))) ->
  for_range n body (f 0%nat) = Ok (f n).
Proof.
  intros Hstep.
  destruct (for_range_invariant (fun i t => t = f i) body n (f 0%nat))
    as [t [Ht ->]]; [reflexivity | | assumption].
  intros i t Hi ->. exists (f (Datatypes.S i)). split; [apply Hstep; assumption | reflexivity].
Qed.

Lemma for_range_split {S : Type} (body : nat -> S -> result S) (n m : nat) (s : S) :
  (n <= m)%nat ->
  for_range m body s = (s' <- for_range n body s ;; for_each (seq n (m - n)) body s').
Proof.
  intros H. unfold for_range.
  replace m with (n + (m - n))%nat at 1 by lia.
  rewrite seq_app, for_each_app. reflexivity.
Qed.

Lemma square_row {A : Type} (n : nat) (m : list (list A)) (i : nat) :
  square n m -> (i < n)%nat -> length (nth i m []) = n.
Proof.
  intros [Hlen Hrows] Hi.
  rewrite Forall_forall in Hrows. apply Hrows. apply nth_In. lia.
Qed.

Lemma getitem2_nth {A : Type} (c : list (list A)) (k i : nat) (d : A) :
  (k < length c)%nat -> (i < length (nth k c []))%nat ->
  getitem2 c k i = Ok (nth i (nth k c []) d).
Proof.
  intros Hk Hi. unfold getitem2.
  rewrite (getitem_nth c k []) by assumption. simpl.
  apply getitem_nth. assumption.
Qed.

Lemma setrow_in {A : Type} (c : list (list A)) (i : nat) (v : list A) :
  (i < length c)%nat -> length v = length (nth i c []) ->
  setrow c i v = Ok (update c i v).
Proof.
  intros Hi Hv. unfold setrow.
  rewrite (getitem_nth c i []) by assumption. simpl.
  unfold broadcast_to. rewrite Hv, Nat.eqb_refl. reflexivity.
Qed.

Lemma states_prefix (Nc Np : nat) (x : list R) (n : nat) :
  length x = (Np + 2 * Nc * Np)%nat -> (n <= Np)%nat -> (n <= Nc)%nat ->
  exists c,
    for_range n (fun i c =>
      let j := (Np + i * 2 * Nc)%nat in
      d <- real_to_complex (slice x j (j + 2 * Nc)) ;;
      setrow c i d) (czeros2 Nc Nc) = Ok c /\
    states_invariant Nc Np x n c.
Proof.
  intros Hx HnNp HnNc.
  apply (for_range_invariant (states_invariant Nc Np x)).
  - unfold states_invariant, czeros2. repeat split.
    + apply repeat_length.
    + intros k Hk. rewrite (nth_repeat_lt _ _ Hk). apply repeat_length.
    + intros k Hk. lia.
  - intros i c Hi (Hlen & Hrows & Hdec). cbv zeta.
    destruct (real_to_complex_even
                (slice x (Np + i * 2 * Nc) (Np + i * 2 * Nc + 2 * Nc)) Nc)
      as [w [Hw Hlw]]; [apply (slice_length x _ _ (2 * Nc)); nia |].
    rewrite Hw. simpl.
    rewrite setrow_in by (rewrite ?Hrows; lia).
    eexists. split; [reflexivity |].
    repeat split.
    + rewrite update_length. assumption.
    + intros k Hk. destruct (Nat.eq_dec i k) as [-> | Hne].
      * rewrite nth_update_eq by lia. assumption.
      * rewrite nth_update_neq by assumption. apply Hrows. assumption.
    + intros k Hk. destruct (Nat.eq_dec i k) as [-> | Hne].
      * rewrite nth_update_eq by lia. assumption.
      * rewrite nth_update_neq by assumption. apply Hdec. lia.
Qed.

Lemma cons3_states_ok (Nc Np : nat) (x : list R) :
  length x = (Np + 2 * Nc * Np)%nat -> (Np <= Nc)%nat ->
  exists c, cons3_states Nc Np x = Ok c /\ states_invariant Nc Np x Np c.
Proof.
  intros Hx Hle. apply states_prefix; [assumption | lia | assumption].
Qed.

(** With more states than rows the loop stops at row [Nc]. *)
Lemma cons3_states_overflow (Nc Np : nat) (x : list R) :
  length x = (Np + 2 * Nc * Np)%nat -> (Nc < Np)%nat ->
  cons3_states Nc Np x = Err (IndexError Nc Nc).
Proof.
  intros Hx Hlt. unfold cons3_states.
  rewrite (for_range_split _ Nc Np) by lia.
  destruct (states_prefix Nc Np x Nc Hx) as [c [Hc (Hlen & _ & _)]]; [lia | lia |].
  cbv zeta in Hc. rewrite Hc.
  replace (Np - Nc)%nat with (Datatypes.S (Np - Nc - 1)) by lia.
  cbn [seq for_each bind].
  destruct (real_to_complex_even
              (slice x (Np + Nc * 2 * Nc) (Np + Nc * 2 * Nc + 2 * Nc)) Nc)
    as [w [-> _]]; [apply (slice_length x _ _ (2 * Nc)); nia |].
  cbn [bind]. unfold setrow.
  rewrite getitem_out by lia. rewrite Hlen. reflexivity.
Qed.

Lemma cons3_entry_ok (Np : nat) (p : list R) (c : list (list complex)) (Nc i j : nat) :
  length p = Np -> (Np <= length c)%nat ->
  (forall k, (k < Np)%nat -> length (nth k c []) = Nc) ->
  (i < Nc)%nat -> (j < Nc)%nat ->
  cons3_entry Np p c i j = Ok (mixture p c Np i j).
Proof.
  intros Hp Hc Hrows Hi Hj. unfold cons3_entry.
  apply (for_range_eq (fun n => mixture p c n i j)).
  intros k Hk.
  rewrite (getitem_nth p k 0) by lia. simpl.
  rewrite (getitem2_nth c k i (RtoC 0)) by (rewrite ?Hrows; lia). simpl.
  rewrite (getitem2_nth c k j (RtoC 0)) by (rewrite ?Hrows; lia). simpl.
  reflexivity.
Qed.

Lemma filled_length {A : Type} (z : A) (g : nat -> A) (n total : nat) :
  (n <= total)%nat -> length (filled z g n total) = total.
Proof.
  intros H. unfold filled.
  rewrite length_app, length_map, length_seq, repeat_length. lia.
Qed.

Lemma update_middle {A : Type} (l tl : list A) (y v : A) (n : nat) :
  length l = n -> update (l ++ y :: tl) n v = l ++ v :: tl.
Proof.
  intros <-. induction l as [| a l IH]; simpl; [reflexivity |].
  rewrite IH. reflexivity.
Qed.

Lemma update_filled {A : Type} (z : A) (g : nat -> A) (n total : nat) :
  (n < total)%nat ->
  update (filled z g n total) n (g n) = filled z g (Datatypes.S n) total.
Proof.
  intros H. unfold filled.
  replace (total - n)%nat with (Datatypes.S (total - Datatypes.S n)) by lia.
  rewrite seq_S, map_app, <- app_assoc. simpl.
  apply update_middle.
  rewrite length_map, length_seq. reflexivity.
Qed.

Lemma nth_filled_rest {A : Type} (z : A) (g : nat -> A) (n total : nat) :
  nth n (filled z g n total) z = z.
Proof.
  unfold filled. rewrite app_nth2; rewrite length_map, length_seq; [| lia].
  rewrite Nat.sub_diag. destruct (total - n)%nat; reflexivity.
Qed.

Lemma filled_start {A : Type} (z : A) (g : nat -> A) (total : nat) :
  filled z g 0 total = repeat z total.
Proof.
  unfold filled. simpl. rewrite Nat.sub_0_r. reflexivity.
Qed.

Lemma filled_full {A : Type} (z : A) (g : nat -> A) (total : nat) :
  filled z g total total = map g (seq 0 total).
Proof.
  unfold filled. rewrite Nat.sub_diag. simpl. apply app_nil_r.
Qed.

Lemma index_div (Nc i j : nat) : (j < Nc)%nat -> ((i * Nc + j) / Nc = i)%nat.
Proof.
  intros H. symmetry. apply (Nat.div_unique (i * Nc + j) Nc i j); lia.
Qed.

Lemma index_mod (Nc i j : nat) : (j < Nc)%nat -> ((i * Nc + j) mod Nc = j)%nat.
Proof.
  intros H. symmetry. apply (Nat.mod_unique (i * Nc + j) Nc i j); lia.
Qed.

(** The double loop writes the residual of every entry, in row-major
    order. *)
Lemma cons3_entries_ok (rho : list (list complex)) (Nc Np : nat) (p : list R)
    (c : list (list complex)) :
  length p = Np -> (Np <= length c)%nat ->
  (forall k, (k < Np)%nat -> length (nth k c []) = Nc) ->
  square Nc rho ->
  cons3_entries rho Nc Np p c =
  Ok (map (fun idx => re (cons3_residual rho p c Nc Np idx)) (seq 0 (Nc ^ 2)),
      map (fun idx => im (cons3_residual rho p c Nc Np idx)) (seq 0 (Nc ^ 2))).
Proof.
  intros Hp Hc Hrows Hrho. unfold cons3_entries.
  set (gr := fun idx => re (cons3_residual rho p c Nc Np idx)).
  set (gi := fun idx => im (cons3_residual rho p c Nc Np idx)).
  set (T := (Nc ^ 2)%nat).
  assert (HT : T = (Nc * Nc)%nat) by (unfold T; simpl; lia).
  replace (zeros T, zeros T) with (filled 0 gr (0 * Nc) T, filled 0 gi (0 * Nc) T)
    by (simpl; rewrite !filled_start; reflexivity).
  rewrite <- (filled_full 0 gr), <- (filled_full 0 gi).
  replace (filled 0 gr T T, filled 0 gi T T)
    with (filled 0 gr (Nc * Nc) T, filled 0 gi (Nc * Nc) T) by (rewrite HT; reflexivity).
  apply (for_range_eq (fun i => (filled 0 gr (i * Nc) T, filled 0 gi (i * Nc) T))).
  intros i Hi.
  replace (Datatypes.S i * Nc)%nat with (i * Nc + Nc)%nat by lia.
  replace (i * Nc)%nat with (i * Nc + 0)%nat at 1 2 by lia.
  apply (for_range_eq (fun j => (filled 0 gr (i * Nc + j) T, filled 0 gi (i * Nc + j) T))).
  intros j Hj.
  rewrite (cons3_entry_ok Np p c Nc i j) by assumption. cbn [bind].
  rewrite (getitem2_nth rho i j (RtoC 0));
    [| destruct Hrho; lia | rewrite (square_row Nc rho i); assumption].
  cbn [bind]. cbv zeta.
  rewrite !setitem_in by (rewrite filled_length; nia).
  cbn [bind].
  assert (Hres : (mixture p c Np i j - nth j (nth i rho []) (RtoC 0))%C
                 = cons3_residual rho p c Nc Np (i * Nc + j)).
  { unfold cons3_residual. rewrite index_div, index_mod by assumption. reflexivity. }
  rewrite Hres.
  change (re (cons3_residual rho p c Nc Np (i * Nc + j))) with (gr (i * Nc + j)%nat).
  change (im (cons3_residual rho p c Nc Np (i * Nc + j))) with (gi (i * Nc + j)%nat).
  rewrite !update_filled by nia.
  replace (i * Nc + Datatypes.S j)%nat with (Datatypes.S (i * Nc + j)) by lia.
  reflexivity.
Qed.

(** [cons3] on a parameter vector of the right length, with at most as many
    states as rows: the residual of every entry, real parts first. *)
Lemma cons3_ok (rho : list (list complex)) (Nc Np : nat) (x : list R) :
  length x = (Np + 2 * Nc * Np)%nat -> (Np <= Nc)%nat -> square Nc rho ->
  exists c,
    states_invariant Nc Np x Np c /\
    cons3 rho Nc Np x =
    Ok (map (fun idx => re (cons3_residual rho (slice x 0 Np) c Nc Np idx))
            (seq 0 (Nc ^ 2)) ++
        map (fun idx => im (cons3_residual rho (slice x 0 Np) c Nc Np idx))
            (seq 0 (Nc ^ 2))).
Proof.
  intros Hx Hle Hrho.
  destruct (cons3_states_ok Nc Np x Hx Hle) as [c [Hc Hinv]].
  exists c. split; [assumption |].
  destruct Hinv as (Hlen & Hrows & _).
  unfold cons3. cbv zeta. rewrite Hc. cbn [bind].
  rewrite (cons3_entries_ok rho Nc Np); [reflexivity | | lia | | assumption].
  - apply (slice_length x 0 Np Np); lia.
  - intros k Hk. apply Hrows. lia.
Qed.

(** C9: on a parameter vector of length [Np + 2 Nc Np] and an [Nc]-by-[Nc]
    matrix [rho], [cons3] is well defined if and only if [Np <= Nc]: under
    [Np <= Nc] it returns the [2 Nc^2] residuals, and for [Np > Nc] it raises
    the index error of row [Nc] of the [Nc]-row buffer. *)
Theorem cons3_in_bounds (rho : list (list complex)) (Nc Np : nat) (x : list R) :
  length x = (Np + 2 * Nc * Np)%nat -> square Nc rho ->
  ((exists r, cons3 rho Nc Np x = Ok r) <-> (Np <= Nc)%nat) /\
  ((Np <= Nc)%nat ->
   exists r, cons3 rho Nc Np x = Ok r /\ length r = (2 * Nc ^ 2)%nat) /\
  ((Nc < Np)%nat -> cons3 rho Nc Np x = Err (IndexError Nc Nc)).
Proof.
  intros Hx Hrho.
  assert (Hok : (Np <= Nc)%nat ->
                exists r, cons3 rho Nc Np x = Ok r /\ length r = (2 * Nc ^ 2)%nat).
  { intros Hle. destruct (cons3_ok rho Nc Np x Hx Hle Hrho) as [c [_ Hr]].
    eexists. split; [exact Hr |].
    rewrite length_app, !length_map, length_seq. lia. }
  assert (Hbad : (Nc < Np)%nat -> cons3 rho Nc Np x = Err (IndexError Nc Nc)).
  { intros Hlt. unfold cons3. cbv zeta.
    rewrite (cons3_states_overflow Nc Np x Hx Hlt). reflexivity. }
  repeat split; try assumption.
  - intros [r Hr]. destruct (Nat.le_gt_cases Np Nc) as [Hle | Hlt]; [assumption |].
    rewrite (Hbad Hlt) in Hr. discriminate.
  - intros Hle. destruct (Hok Hle) as [r [Hr _]]. exists r. assumption.
Qed.

(** C9, at one state of dimension one. *)
Lemma cons3_in_bounds_witness :
  ((exists r, cons3 [[RtoC 1]] 1 1 [1; 1; 0] = Ok r) <-> (1 <= 1)%nat) /\
  ((1 <= 1)%nat ->
   exists r, cons3 [[RtoC 1]] 1 1 [1; 1; 0] = Ok r /\ length r = (2 * 1 ^ 2)%nat) /\
  ((1 < 1)%nat -> cons3 [[RtoC 1]] 1 1 [1; 1; 0] = Err (IndexError 1 1)).
Proof.
  apply (cons3_in_bounds [[RtoC 1]] 1 1 [1; 1; 0]).
  - reflexivity.
  - split; [reflexivity | repeat constructor].
Defined.

(** ** Reconstruction of a directly built matrix *)

Lemma concat_blocks_length {A : Type} (bs : list (list A)) (m : nat) :
  Forall (fun b => length b = m) bs -> length (concat bs) = (length bs * m)%nat.
Proof.
  induction 1 as [| b bs Hb _ IH]; simpl; [reflexivity |].
  rewrite length_app, IH, Hb. reflexivity.
Qed.

Lemma slice_concat {A : Type} (bs : list (list A)) (m k : nat) :
  Forall (fun b => length b = m) bs -> (k < length bs)%nat ->
  slice (concat bs) (k * m) (k * m + m) = nth k bs [].
Proof.
  intros H. revert k. induction H as [| b bs Hb _ IH]; intros k Hk; simpl in Hk; [lia |].
  subst m. destruct k as [| k]; simpl.
  - apply slice_prefix.
  - rewrite <- Nat.add_assoc, slice_app_skip. apply IH. lia.
Qed.

Lemma complex_to_real_length (w : list complex) :
  length (complex_to_real w) = (2 * length w)%nat.
Proof.
  unfold complex_to_real. rewrite length_app, !length_map. lia.
Qed.

Lemma encoded_blocks (cs : list (list complex)) (Nc : nat) :
  Forall (fun c => length c = Nc) cs ->
  Forall (fun b => length b = (2 * Nc)%nat) (map complex_to_real cs).
Proof.
  intros H. apply Forall_map. revert H. apply Forall_impl.
  intros c Hc. rewrite complex_to_real_length, Hc. reflexivity.
Qed.

Lemma parameter_vector_length (p : list R) (cs : list (list complex)) (Nc Np : nat) :
  length p = Np -> length cs = Np -> Forall (fun c => length c = Nc) cs ->
  length (parameter_vector p cs) = (Np + 2 * Nc * Np)%nat.
Proof.
  intros Hp Hcs Hall. unfold parameter_vector.
  rewrite length_app, (concat_blocks_length _ (2 * Nc)) by (apply encoded_blocks; assumption).
  rewrite length_map. lia.
Qed.

(** The block of the parameter vector that encodes state [k]. *)
Lemma parameter_vector_state (p : list R) (cs : list (list complex)) (Nc Np k : nat) :
  length p = Np -> length cs = Np -> Forall (fun c => length c = Nc) cs ->
  (k < Np)%nat ->
  slice (parameter_vector p cs) (Np + k * 2 * Nc) (Np + k * 2 * Nc + 2 * Nc)
  = complex_to_real (nth k cs []).
Proof.
  intros Hp Hcs Hall Hk. unfold parameter_vector. subst Np.
  rewrite <- Nat.add_assoc, slice_app_skip.
  replace (k * 2 * Nc)%nat with (k * (2 * Nc))%nat by lia.
  rewrite slice_concat; [| apply encoded_blocks; assumption | rewrite length_map; lia].
  apply (map_nth complex_to_real cs []).
Qed.

Lemma mixture_ext (p : list R) (c cs : list (list complex)) (n i j : nat) :
  (forall k, (k < n)%nat -> nth k c [] = nth k cs []) ->
  mixture p c n i j = mixture p cs n i j.
Proof.
  induction n as [| n IH]; intros H; simpl; [reflexivity |].
  rewrite IH by (intros k Hk; apply H; lia).
  rewrite (H n) by lia. reflexivity.
Qed.

Lemma Cadd_assoc (u v w : complex) : (u + v + w)%C = (u + (v + w))%C.
Proof.
  unfold Cadd. simpl. f_equal; ring.
Qed.

Lemma Cadd_0_swap (z : complex) : (RtoC 0 + z)%C = (z + RtoC 0)%C.
Proof.
  unfold Cadd, RtoC. simpl. f_equal; ring.
Qed.

Lemma mixture_cons (w : R) (p : list R) (c : list complex) (cs : list (list complex))
    (n i j : nat) :
  mixture (w :: p) (c :: cs) (Datatypes.S n) i j
  = (RtoC w * nth i c (RtoC 0) * Cconj (nth j c (RtoC 0)) + mixture p cs n i j)%C.
Proof.
  induction n as [| n IH].
  - simpl. apply Cadd_0_swap.
  - change (mixture (w :: p) (c :: cs) (Datatypes.S (Datatypes.S n)) i j)
      with (mixture (w :: p) (c :: cs) (Datatypes.S n) i j +
            RtoC (nth n p 0) * nth i (nth n cs []) (RtoC 0)
                             * Cconj (nth j (nth n cs []) (RtoC 0)))%C.
    rewrite IH, Cadd_assoc. reflexivity.
Qed.

(** The loop of [cons3] over all the states computes the weighted sum of the
    outer products. *)
Lemma mixture_outer_product_sum (p : list R) (cs : list (list complex)) (i j : nat) :
  length p = length cs ->
  mixture p cs (length p) i j = outer_product_sum p cs i j.
Proof.
  revert cs. induction p as [| w p IH]; intros [| c cs] H; simpl in H;
    try discriminate; [reflexivity |].
  change (length (w :: p)) with (Datatypes.S (length p)).
  rewrite mixture_cons, IH by lia. reflexivity.
Qed.

Lemma mixture_matrix_square (p : list R) (cs : list (list complex)) (Nc : nat) :
  square Nc (mixture_matrix p cs Nc).
Proof.
  unfold square, mixture_matrix. split.
  - rewrite length_map, length_seq. reflexivity.
  - apply Forall_map, Forall_forall. intros i _.
    rewrite length_map, length_seq. reflexivity.
Qed.

Lemma mixture_matrix_entry (p : list R) (cs : list (list complex)) (Nc i j : nat) :
  (i < Nc)%nat -> (j < Nc)%nat ->
  nth j (nth i (mixture_matrix p cs Nc) []) (RtoC 0) = outer_product_sum p cs i j.
Proof.
  intros Hi Hj. unfold mixture_matrix.
  rewrite (nth_indep _ [] (map (fun j => outer_product_sum p cs 0 j) (seq 0 Nc)))
    by (rewrite length_map, length_seq; assumption).
  rewrite (map_nth (fun i => map (fun j => outer_product_sum p cs i j) (seq 0 Nc))
             (seq 0 Nc) 0%nat).
  rewrite seq_nth by assumption. simpl.
  rewrite (nth_indep _ (RtoC 0) (outer_product_sum p cs i 0))
    by (rewrite length_map, length_seq; assumption).
  rewrite (map_nth (fun j => outer_product_sum p cs i j) (seq 0 Nc) 0%nat).
  rewrite seq_nth by assumption. reflexivity.
Qed.

Lemma map_seq_zero (g : nat -> R) (n : nat) :
  (forall i, (i < n)%nat -> g i = 0) -> map g (seq 0 n) = repeat 0 n.
Proof.
  induction n as [| n IH]; intros H; [reflexivity |].
  rewrite seq_S, map_app, IH by (intros i Hi; apply H; lia).
  replace (Datatypes.S n) with (n + 1)%nat by lia.
  rewrite repeat_app. simpl. rewrite (H n) by lia. reflexivity.
Qed.

Lemma Csub_diag (z : complex) : (z - z)%C = RtoC 0.
Proof.
  unfold Csub, RtoC. f_equal; ring.
Qed.

(** C5 fails on the code: the buffer of the decoded states has [Nc] rows
    where it needs [Np] ([cons2] sizes its array with [Np]).  Two states of
    dimension one (weights one half each, both of norm one, [rho] their
    mixture) do not fit the one-row buffer, and [cons3] raises an index error
    instead of returning the zero vector. *)
Lemma cons3_more_states_than_rows :
  Forall (fun w => 0 <= w) [1 / 2; 1 / 2] /\
  np_sum [1 / 2; 1 / 2] = 1 /\
  Forall (fun c => length c = 1%nat /\ norm c = 1) [[RtoC 1]; [RtoC 1]] /\
  cons3 (mixture_matrix [1 / 2; 1 / 2] [[RtoC 1]; [RtoC 1]] 1) 1 2
        (parameter_vector [1 / 2; 1 / 2] [[RtoC 1]; [RtoC 1]])
  = Err (IndexError 1 1).
Proof.
  assert (Hnorm : norm [RtoC 1] = 1).
  { unfold norm, np_sum. simpl.
    replace (0 + (1 * 1 + 0 * 0)) with 1 by ring. apply sqrt_1. }
  split; [| split; [| split]].
  - repeat constructor; lra.
  - unfold np_sum. simpl. lra.
  - repeat constructor; assumption.
  - unfold cons3. cbv zeta.
    rewrite cons3_states_overflow; [reflexivity | reflexivity | lia].
Qed.

(** X26: Where the states fit the buffer ([Np <= Nc]) the reconstruction is
    exact: for [Np] weights and [Np] complex state vectors of dimension [Nc],
    and [rho] built as the weighted sum of the outer products of those
    vectors, [cons3] at the parameter vector that encodes them returns the
    zero vector of length [2 Nc^2]. *)
Theorem cons3_direct_construction (p : list R) (cs : list (list complex))
    (Nc Np : nat) :
  length p = Np -> length cs = Np -> Forall (fun c => length c = Nc) cs ->
  (Np <= Nc)%nat ->
  cons3 (mixture_matrix p cs Nc) Nc Np (parameter_vector p cs)
  = Ok (zeros (2 * Nc ^ 2)).
Proof.
  intros Hp Hcs Hall Hle.
  pose proof (parameter_vector_length p cs Nc Np Hp Hcs Hall) as Hx.
  destruct (cons3_ok (mixture_matrix p cs Nc) Nc Np (parameter_vector p cs)
              Hx Hle (mixture_matrix_square p cs Nc)) as [c [Hinv ->]].
  destruct Hinv as (_ & _ & Hdec).
  assert (Hrows : forall k, (k < Np)%nat -> nth k c [] = nth k cs []).
  { intros k Hk. specialize (Hdec k Hk).
    rewrite (parameter_vector_state p cs Nc Np k) in Hdec by assumption.
    rewrite real_to_complex_to_real in Hdec.
    injection Hdec as Hdec. symmetry. assumption. }
  assert (Hzero : forall idx, (idx < Nc ^ 2)%nat ->
            cons3_residual (mixture_matrix p cs Nc)
              (slice (parameter_vector p cs) 0 Np) c Nc Np idx = RtoC 0).
  { intros idx Hidx. unfold cons3_residual.
    assert (HNc : Nc <> 0%nat) by (intros ->; simpl in Hidx; lia).
    rewrite mixture_matrix_entry.
    - unfold parameter_vector. rewrite <- Hp at 1. rewrite slice_prefix.
      rewrite (mixture_ext p c cs) by assumption.
      rewrite <- Hp, mixture_outer_product_sum by congruence.
      apply Csub_diag.
    - apply Nat.Div0.div_lt_upper_bound. simpl in Hidx. lia.
    - apply Nat.mod_upper_bound. assumption. }
  rewrite !map_seq_zero by (intros idx Hidx; rewrite Hzero by assumption; reflexivity).
  unfold zeros. rewrite <- repeat_app. f_equal. f_equal. lia.
Qed.

(** At the pure state [|0>] of dimension one. *)
Lemma cons3_direct_construction_witness :
  cons3 (mixture_matrix [1] [[RtoC 1]] 1) 1 1 (parameter_vector [1] [[RtoC 1]])
  = Ok (zeros (2 * 1 ^ 2)).
Proof.
  apply (cons3_direct_construction [1] [[RtoC 1]] 1 1).
  - reflexivity.
  - reflexivity.
  - repeat constructor.
  - lia.
Defined.

(** ** The multi-start driver *)

Lemma broadcast_same {A B C : Type} (f : A -> B -> C) (a : list A) (b : list B) :
  length a = length b -> broadcast f a b = Ok (zip_with f a b).
Proof.
  intros H. unfold broadcast. rewrite H, Nat.eqb_refl. reflexivity.
Qed.

(** Drawing a starting point never raises and consumes [draws Nc Np] draws. *)
Lemma initial_point_ok (rng : nat -> R) (Nc Np s : nat) :
  exists x0, initial_point rng Nc Np s = Ok (x0, (s + draws Nc Np)%nat).
Proof.
  unfold initial_point, random_sample.
  match goal with
  | |- exists x0, for_range _ ?body ?init = _ =>
      destruct (for_range_invariant
                  (fun k (st : list fval * nat) => snd st = (s + Np + k * (Nc + Nc))%nat)
                  body Np init) as [[x0 s'] [Hrun Hs]]
  end.
  - simpl. lia.
  - intros k [x0 s1] Hk Hs1. simpl in Hs1. subst s1.
    rewrite broadcast_same by (rewrite !length_map, !length_seq; reflexivity).
    cbn [bind]. eexists. split; [reflexivity |]. simpl. lia.
  - simpl in Hs. exists x0. rewrite Hrun. f_equal. f_equal. unfold draws. lia.
Qed.

Lemma start_point_ok (rng : nat -> R) (Nc Np j : nat) :
  initial_point rng Nc Np (j * draws Nc Np)
  = Ok (start_point rng Nc Np j, (Datatypes.S j * draws Nc Np)%nat).
Proof.
  unfold start_point.
  destruct (initial_point_ok rng Nc Np (j * draws Nc Np)) as [x0 ->].
  f_equal. f_equal. lia.
Qed.

Lemma xlt0_negative (v : xreal) : xlt0 v = true <-> negative v.
Proof.
  destruct v as [| r |]; simpl.
  - tauto.
  - destruct (Rlt_dec r 0); split; intros H; auto; try discriminate; contradiction.
  - split; [discriminate | contradiction].
Qed.

Lemma xlt0_nonneg (v : xreal) : xlt0 v = false <-> nonneg_or_inf v.
Proof.
  destruct v as [| r |]; simpl.
  - split; [discriminate | contradiction].
  - destruct (Rlt_dec r 0); split; intros H; auto; try discriminate; lra.
  - tauto.
Qed.

Lemma recorded_failure (e : exn) : recorded (Err e) (Fin 0) = Fin 0.
Proof.
  unfold recorded, xlt0. destruct (Rlt_dec 0 0); [lra | reflexivity].
Qed.

Lemma recorded_negative (v previous : xreal) :
  negative v -> recorded (Ok v) previous = PInf.
Proof.
  intros H. apply xlt0_negative in H. unfold recorded. rewrite H. reflexivity.
Qed.

Lemma recorded_nonneg (outcome : result xreal) :
  nonneg_or_inf (recorded outcome (Fin 0)).
Proof.
  unfold recorded.
  destruct (xlt0 (match outcome with Ok fun_ => fun_ | Err _ => Fin 0 end)) eqn:H.
  - exact I.
  - apply xlt0_nonneg. assumption.
Qed.

Lemma xmin_nonneg (v w : xreal) :
  nonneg_or_inf v -> nonneg_or_inf w -> nonneg_or_inf (xmin v w).
Proof.
  destruct v as [| a |], w as [| b |]; simpl; try tauto.
  intros Ha Hb. apply Rmin_glb; assumption.
Qed.

Lemma np_min_nonneg (a : list xreal) (m : xreal) :
  Forall nonneg_or_inf a -> np_min a = Ok m -> nonneg_or_inf m.
Proof.
  destruct a as [| v a]; simpl; [discriminate |].
  intros Hall [= <-]. inversion Hall as [| ? ? Hv Ha]; subst.
  clear Hall. revert v Hv. induction Ha as [| w a Hw _ IH]; intros v Hv; simpl.
  - assumption.
  - apply IH. apply xmin_nonneg; assumption.
Qed.

Section DriverProofs.

Variable minimize : problem -> result xreal.
Variable rng : nat -> R.
Variable rho : list (list complex).
Variable error : R.
Variables Nc Np : nat.
Variable options : solver_options.

Let outcome := start_outcome minimize rng rho error Nc Np options.

(** One start writes entry [j] and nothing else. *)
Lemma start_ok (j : nat) (tangles : list xreal) :
  (j < length tangles)%nat ->
  start minimize rng rho error Nc Np options j (tangles, (j * draws Nc Np)%nat)
  = Ok (update tangles j (recorded (outcome j) (nth j tangles (Fin 0))),
        (Datatypes.S j * draws Nc Np)%nat).
Proof.
  intros Hj. unfold start. rewrite start_point_ok. cbn [bind].
  unfold outcome, start_outcome, recorded.
  destruct (solve minimize rho error Nc Np options (start_point rng Nc Np j))
    as [v | e]; cbn [bind try_except].
  - rewrite setitem_in by assumption. cbn [try_except].
    rewrite (getitem_nth _ j (Fin 0)) by (rewrite update_length; assumption).
    cbn [bind]. rewrite nth_update_eq by assumption.
    destruct (xlt0 v).
    + rewrite setitem_in by (rewrite update_length; assumption). cbn [bind].
      f_equal. f_equal.
      clear. revert j. induction tangles as [| t ts IH]; intros [| j]; simpl; auto.
      f_equal. apply IH.
    + reflexivity.
  - rewrite (getitem_nth _ j (Fin 0)) by assumption. cbn [bind].
    destruct (xlt0 (nth j tangles (Fin 0))).
    + rewrite setitem_in by assumption. reflexivity.
    + cbn [bind]. rewrite update_same. reflexivity.
Qed.

(** The loop never raises, and entry [j] of the array is what start [j]
    recorded over the initial zero. *)
Lemma run_starts_ok (N : nat) :
  run_starts minimize rng rho N error Nc Np options
  = Ok (map (fun j => recorded (outcome j) (Fin 0)) (seq 0 N)).
Proof.
  unfold run_starts.
  set (g := fun j => recorded (outcome j) (Fin 0)).
  rewrite <- (filled_start (Fin 0) g N).
  change 0%nat with (0 * draws Nc Np)%nat at 2.
  rewrite (for_range_eq (fun n => (filled (Fin 0) g n N, (n * draws Nc Np)%nat))).
  - cbn [bind]. rewrite filled_full. reflexivity.
  - intros j Hj.
    rewrite start_ok by (rewrite filled_length; lia).
    rewrite nth_filled_rest. fold (g j).
    rewrite update_filled by assumption. reflexivity.
Qed.

End DriverProofs.

(** [three_tangle] is the minimum of what the starts recorded. *)
Lemma three_tangle_eq (minimize : problem -> result xreal) (rng : nat -> R)
    (rho : list (list complex)) (N : nat) (error : R) (Nc Np : nat)
    (so : option solver_options) :
  three_tangle minimize rng rho N error Nc Np so
  = np_min (map (fun j =>
                   recorded (start_outcome minimize rng rho error Nc Np
                               (options_or_default so) j) (Fin 0))
                (seq 0 N)).
Proof.
  unfold three_tangle. cbv zeta. rewrite run_starts_ok. reflexivity.
Qed.

Lemma nth_map_seq {A : Type} (g : nat -> A) (n j : nat) (d : A) :
  (j < n)%nat -> nth j (map g (seq 0 n)) d = g j.
Proof.
  intros H.
  rewrite (nth_indep _ d (g 0%nat)) by (rewrite length_map, length_seq; assumption).
  rewrite (map_nth g (seq 0 n) 0%nat), seq_nth by assumption. reflexivity.
Qed.

Lemma nonneg_not_negative (v : xreal) : nonneg_or_inf v -> ~ negative v.
Proof.
  destruct v as [| r |]; simpl; intros H Hn; try contradiction. lra.
Qed.

Lemma np_min_constant (v : xreal) (n : nat) :
  xmin v v = v -> np_min (repeat v (Datatypes.S n)) = Ok v.
Proof.
  intros Hv. simpl. f_equal.
  induction n as [| n IH]; simpl; [reflexivity |].
  rewrite Hv. assumption.
Qed.

Lemma map_constant {A : Type} (v : A) (n : nat) :
  map (fun _ => v) (seq 0 n) = repeat v n.
Proof.
  generalize 0%nat. induction n as [| n IH]; intros s; simpl; [reflexivity |].
  rewrite IH. reflexivity.
Qed.

Lemma xmin_zero_l (w : xreal) : nonneg_or_inf w -> xmin (Fin 0) w = Fin 0.
Proof.
  destruct w as [| b |]; simpl; intros H; try contradiction; [| reflexivity].
  f_equal. apply Rmin_left. assumption.
Qed.

Lemma xmin_zero_r (v : xreal) : nonneg_or_inf v -> xmin v (Fin 0) = Fin 0.
Proof.
  destruct v as [| a |]; simpl; intros H; try contradiction; [| reflexivity].
  f_equal. apply Rmin_right. assumption.
Qed.

Lemma fold_xmin_zero (a : list xreal) (v : xreal) :
  Forall nonneg_or_inf a -> nonneg_or_inf v ->
  v = Fin 0 \/ In (Fin 0) a ->
  fold_left xmin a v = Fin 0.
Proof.
  intros Ha. revert v. induction Ha as [| w a Hw Ha IH]; intros v Hv Hz; simpl.
  - destruct Hz as [-> | []]. reflexivity.
  - apply IH; [apply xmin_nonneg; assumption |].
    destruct Hz as [-> | [-> | Hin]].
    + left. apply xmin_zero_l. assumption.
    + left. apply xmin_zero_r. assumption.
    + right. assumption.
Qed.

(** The entry of a start on which the solver raises is the initial zero. *)
Lemma failed_start_entry (minimize : problem -> result xreal) (rng : nat -> R)
    (rho : list (list complex)) (N : nat) (error : R) (Nc Np : nat)
    (options : solver_options) (j : nat) (e : exn) :
  (j < N)%nat ->
  start_outcome minimize rng rho error Nc Np options j = Err e ->
  exists tangles,
    run_starts minimize rng rho N error Nc Np options = Ok tangles /\
    nth j tangles PInf = Fin 0.
Proof.
  intros Hj Hout. eexists. split; [apply run_starts_ok |].
  rewrite nth_map_seq by assumption.
  rewrite Hout. apply recorded_failure.
Qed.

(** One start on which the solver raises makes the result zero, whatever the
    other starts find. *)
Lemma failed_start_decides_minimum (minimize : problem -> result xreal)
    (rng : nat -> R) (rho : list (list complex)) (N : nat) (error : R)
    (Nc Np : nat) (so : option solver_options) (j : nat) (e : exn) :
  (j < N)%nat ->
  start_outcome minimize rng rho error Nc Np (options_or_default so) j = Err e ->
  three_tangle minimize rng rho N error Nc Np so = Ok (Fin 0).
Proof.
  intros Hj Hout. rewrite three_tangle_eq.
  set (g := fun j => recorded (start_outcome minimize rng rho error Nc Np
                                 (options_or_default so) j) (Fin 0)).
  assert (Hall : Forall nonneg_or_inf (map g (seq 0 N)))
    by (apply Forall_map, Forall_forall; intros i _; apply recorded_nonneg).
  assert (Hin : In (Fin 0) (map g (seq 0 N))).
  { apply in_map_iff. exists j. split.
    - unfold g. rewrite Hout. apply recorded_failure.
    - apply in_seq. lia. }
  destruct (map g (seq 0 N)) as [| v a]; [contradiction |].
  simpl. f_equal.
  inversion Hall as [| ? ? Hv Ha]; subst.
  apply fold_xmin_zero; assumption.
Qed.

(** C1 fails on the code: a start on which the solver raises keeps the
    initial value [0.0] of its entry, which is not the sentinel infinity.
    The loop does go on: no exception is propagated. *)
Theorem failed_start_records_zero (rng : nat -> R) (rho : list (list complex))
    (error : R) (Nc Np : nat) (options : solver_options) :
  run_starts failing_solver rng rho 2 error Nc Np options = Ok [Fin 0; Fin 0] /\
  Fin 0 <> PInf.
Proof.
  split; [| discriminate].
  rewrite run_starts_ok. simpl.
  unfold start_outcome, solve, failing_solver.
  rewrite recorded_failure. reflexivity.
Qed.

(** C2 fails on the code: when the solver raises on every start the result
    is [0.0], not infinity. *)
Theorem all_starts_fail_returns_zero (rng : nat -> R) (rho : list (list complex))
    (N : nat) (error : R) (Nc Np : nat) (so : option solver_options) :
  three_tangle failing_solver rng rho (Datatypes.S N) error Nc Np so = Ok (Fin 0).
Proof.
  rewrite three_tangle_eq.
  unfold start_outcome, solve, failing_solver.
  rewrite recorded_failure, map_constant.
  apply np_min_constant. simpl. f_equal.
  apply Rmin_left. lra.
Qed.

(** The part of C2 that the code keeps: when the solver returns a negative
    value on every one of at least one start, the result is infinity. *)
Lemma all_starts_negative_returns_inf (rng : nat -> R) (rho : list (list complex))
    (N : nat) (error : R) (Nc Np : nat) (so : option solver_options) (v : xreal) :
  negative v ->
  three_tangle (constant_solver v) rng rho (Datatypes.S N) error Nc Np so = Ok PInf.
Proof.
  intros Hv. rewrite three_tangle_eq.
  unfold start_outcome, solve, constant_solver.
  rewrite (recorded_negative v (Fin 0) Hv), map_constant.
  apply np_min_constant. reflexivity.
Qed.

(** With no start at all there is no minimum to return. *)
Lemma three_tangle_no_start (minimize : problem -> result xreal) (rng : nat -> R)
    (rho : list (list complex)) (error : R) (Nc Np : nat)
    (so : option solver_options) :
  three_tangle minimize rng rho 0 error Nc Np so = Err ValueError.
Proof.
  rewrite three_tangle_eq. reflexivity.
Qed.

(** Either there is no start and the reduction raises, or a non-negative
    value or infinity is returned. *)
Lemma three_tangle_cases (minimize : problem -> result xreal) (rng : nat -> R)
    (rho : list (list complex)) (N : nat) (error : R) (Nc Np : nat)
    (so : option solver_options) :
  (N = 0%nat /\ three_tangle minimize rng rho N error Nc Np so = Err ValueError) \/
  (exists m, three_tangle minimize rng rho N error Nc Np so = Ok m /\ nonneg_or_inf m).
Proof.
  destruct N as [| N].
  - left. split; [reflexivity | apply three_tangle_no_start].
  - right. rewrite three_tangle_eq.
    destruct (np_min _) as [m | e] eqn:Hmin; [| discriminate Hmin].
    exists m. split; [reflexivity |].
    apply np_min_nonneg in Hmin; [assumption |].
    apply Forall_map, Forall_forall. intros j _. apply recorded_nonneg.
Qed.

(** C3: whatever the solver and the generator do, and for every [rho], [N],
    [error], [Nc], [Np] and options, the value that [three_tangle] returns is
    a non-negative real number or infinity; nothing is returned only when
    [N = 0], where the empty reduction raises. *)
Theorem three_tangle_nonneg (minimize : problem -> result xreal) (rng : nat -> R)
    (rho : list (list complex)) (N : nat) (error : R) (Nc Np : nat)
    (so : option solver_options) :
  match three_tangle minimize rng rho N error Nc Np so with
  | Ok v => nonneg_or_inf v
  | Err e => N = 0%nat /\ e = ValueError
  end.
Proof.
  destruct (three_tangle_cases minimize rng rho N error Nc Np so)
    as [[HN ->] | [m [-> Hm]]].
  - split; [assumption | reflexivity].
  - assumption.
Qed.

(** C7: a start on which the solver reports a negative value has its entry
    overwritten with infinity before the reduction, and the minimum that
    [three_tangle] returns is not negative. *)
Theorem negative_result_discarded (minimize : problem -> result xreal)
    (rng : nat -> R) (rho : list (list complex)) (N : nat) (error : R)
    (Nc Np : nat) (so : option solver_options) (j : nat) (v : xreal) :
  (j < N)%nat ->
  start_outcome minimize rng rho error Nc Np (options_or_default so) j = Ok v ->
  negative v ->
  exists tangles m,
    run_starts minimize rng rho N error Nc Np (options_or_default so) = Ok tangles /\
    nth j tangles (Fin 0) = PInf /\
    three_tangle minimize rng rho N error Nc Np so = Ok m /\
    ~ negative m.
Proof.
  intros Hj Hout Hneg.
  destruct (three_tangle_cases minimize rng rho N error Nc Np so)
    as [[HN _] | [m [-> Hm]]]; [lia |].
  eexists. exists m. split; [apply run_starts_ok |].
  split; [| split; [reflexivity | apply nonneg_not_negative; assumption]].
  rewrite nth_map_seq by assumption.
  rewrite Hout. apply recorded_negative. assumption.
Qed.

(** C7, at one start on which the solver reports [-1]. *)
Lemma negative_result_discarded_witness :
  exists tangles m,
    run_starts (constant_solver (Fin (-1))) (fun _ => 0) [] 1 0 8 4
               (options_or_default None) = Ok tangles /\
    nth 0 tangles (Fin 0) = PInf /\
    three_tangle (constant_solver (Fin (-1))) (fun _ => 0) [] 1 0 8 4 None = Ok m /\
    ~ negative m.
Proof.
  apply (negative_result_discarded (constant_solver (Fin (-1))) (fun _ => 0) []
           1 0 8 4 None 0 (Fin (-1))).
  - lia.
  - reflexivity.
  - simpl. lra.
Defined.

(** ** Algebra of the analytic tangle *)

Lemma complex_ring :
  ring_theory (RtoC 0) (RtoC 1) Cadd Cmul Csub Copp (@eq complex).
Proof.
  constructor; intros; unfold Cadd, Cmul, Csub, Copp, RtoC; simpl;
    try (destruct x as [a b]; simpl); f_equal; ring.
Qed.

Add Ring complex_ring_inst : complex_ring.

Lemma RtoC_2 : RtoC 2 = (RtoC 1 + RtoC 1)%C.
Proof. unfold Cadd, RtoC. simpl. f_equal; ring. Qed.

Lemma RtoC_4 : RtoC 4 = (RtoC 1 + RtoC 1 + RtoC 1 + RtoC 1)%C.
Proof. unfold Cadd, RtoC. simpl. f_equal; ring. Qed.

Ltac cring := unfold tangle_polynomial, Csqr; rewrite ?RtoC_2, ?RtoC_4; ring.

Lemma Cabs_mul (z w : complex) : Cabs (z * w) = Cabs z * Cabs w.
Proof.
  unfold Cabs, Cmul. simpl.
  rewrite <- sqrt_mult by nra.
  f_equal. ring.
Qed.

Lemma Cabs_0 : Cabs (RtoC 0) = 0.
Proof.
  apply Cabs_real; [reflexivity | reflexivity | lra].
Qed.

(** With at least eight amplitudes the tangle is four times the modulus of
    the polynomial of the first eight. *)
Lemma theoretical_tangle_polynomial (phi : list complex) :
  (8 <= length phi)%nat ->
  theoretical_tangle phi =
  Ok (4 * Cabs (tangle_polynomial
                  (nth 0 phi (RtoC 0)) (nth 1 phi (RtoC 0)) (nth 2 phi (RtoC 0))
                  (nth 3 phi (RtoC 0)) (nth 4 phi (RtoC 0)) (nth 5 phi (RtoC 0))
                  (nth 6 phi (RtoC 0)) (nth 7 phi (RtoC 0)))).
Proof.
  intros H. unfold theoretical_tangle.
  rewrite !(getitem_nth phi _ (RtoC 0)) by lia. reflexivity.
Qed.

Lemma tangle_polynomial_scale (l a0 a1 a2 a3 a4 a5 a6 a7 : complex) :
  tangle_polynomial (l * a0) (l * a1) (l * a2) (l * a3)
                    (l * a4) (l * a5) (l * a6) (l * a7)
  = (l * l * l * l * tangle_polynomial a0 a1 a2 a3 a4 a5 a6 a7)%C.
Proof. cring. Qed.

Lemma tangle_polynomial_product (a0 a1 p0 p1 p2 p3 : complex) :
  tangle_polynomial (a0 * p0) (a0 * p1) (a0 * p2) (a0 * p3)
                    (a1 * p0) (a1 * p1) (a1 * p2) (a1 * p3) = RtoC 0.
Proof. cring. Qed.

Lemma theoretical_tangle_short (phi : list complex) :
  (length phi < 8)%nat ->
  theoretical_tangle phi
  = Err (IndexError (if (length phi =? 0)%nat then 0 else 7) (length phi)).
Proof.
  intros H.
  do 8 (destruct phi as [| ? phi]; [reflexivity |]).
  simpl in H. lia.
Qed.

Lemma theoretical_tangle_ok_length (phi : list complex) (tau : R) :
  theoretical_tangle phi = Ok tau -> (8 <= length phi)%nat.
Proof.
  intros H. destruct (Nat.le_gt_cases 8 (length phi)) as [Hle | Hlt]; [assumption |].
  rewrite theoretical_tangle_short in H by assumption. discriminate.
Qed.

(** X1: The tangle reads the first eight amplitudes and nothing else: with at
    least eight it returns, and the value is that of the first eight; with
    fewer it raises the index error of [phi[7]] (of [phi[0]] on an empty
    vector). *)
Theorem theoretical_tangle_extent (phi : list complex) :
  if (8 <=? length phi)%nat
  then theoretical_tangle phi = theoretical_tangle (firstn 8 phi) /\
       exists tau, theoretical_tangle phi = Ok tau
  else theoretical_tangle phi
       = Err (IndexError (if (length phi =? 0)%nat then 0 else 7) (length phi)).
Proof.
  destruct (8 <=? length phi)%nat eqn:H.
  - apply Nat.leb_le in H. split.
    + rewrite (theoretical_tangle_polynomial phi H).
      rewrite theoretical_tangle_polynomial by (rewrite length_firstn; lia).
      rewrite !nth_firstn. reflexivity.
    + rewrite (theoretical_tangle_polynomial phi H). eexists. reflexivity.
  - apply Nat.leb_gt in H. apply theoretical_tangle_short. assumption.
Qed.

Lemma nth_map_Cmul (l : complex) (phi : list complex) (k : nat) :
  (k < length phi)%nat ->
  nth k (map (Cmul l) phi) (RtoC 0) = (l * nth k phi (RtoC 0))%C.
Proof.
  intros H.
  rewrite (nth_indep _ (RtoC 0) (l * RtoC 0)%C) by (rewrite length_map; assumption).
  apply (map_nth (Cmul l)).
Qed.

(** X2: The tangle is homogeneous of degree four: multiplying every amplitude by
    a complex number [l] multiplies the tangle by [|l|^4].  A global phase
    does not change it. *)
Theorem theoretical_tangle_scale (l : complex) (phi : list complex) (tau : R) :
  theoretical_tangle phi = Ok tau ->
  theoretical_tangle (map (Cmul l) phi) = Ok (Cabs l ^ 4 * tau).
Proof.
  intros H. pose proof (theoretical_tangle_ok_length phi tau H) as Hlen.
  rewrite (theoretical_tangle_polynomial phi Hlen) in H. injection H as <-.
  rewrite theoretical_tangle_polynomial by (rewrite length_map; assumption).
  rewrite !nth_map_Cmul by lia.
  rewrite tangle_polynomial_scale, !Cabs_mul. f_equal. ring.
Qed.

Lemma theoretical_tangle_scale_witness :
  theoretical_tangle (map (Cmul Ci) ghz) = Ok (Cabs Ci ^ 4 * 1).
Proof.
  apply (theoretical_tangle_scale Ci ghz 1).
  exact theoretical_tangle_ghz.
Defined.

(** X3: The tangle of [a |000> + b |111>] is [4 |a|^2 |b|^2]. *)
Theorem theoretical_tangle_ghz_class (a b : complex) :
  theoretical_tangle [a; RtoC 0; RtoC 0; RtoC 0; RtoC 0; RtoC 0; RtoC 0; b]
  = Ok (4 * Cabs a ^ 2 * Cabs b ^ 2).
Proof.
  rewrite theoretical_tangle_polynomial by (simpl; lia). simpl nth.
  replace (tangle_polynomial a (RtoC 0) (RtoC 0) (RtoC 0) (RtoC 0) (RtoC 0) (RtoC 0) b)
    with (a * a * (b * b))%C by cring.
  rewrite !Cabs_mul. f_equal. ring.
Qed.

(** X4: The tangle of every state [a |001> + b |010> + c |100>] (the W class)
    is zero. *)
Theorem theoretical_tangle_w_class (a b c : complex) :
  theoretical_tangle [RtoC 0; a; b; RtoC 0; c; RtoC 0; RtoC 0; RtoC 0] = Ok 0.
Proof.
  rewrite theoretical_tangle_polynomial by (simpl; lia). simpl nth.
  replace (tangle_polynomial (RtoC 0) a b (RtoC 0) c (RtoC 0) (RtoC 0) (RtoC 0))
    with (RtoC 0) by cring.
  rewrite Cabs_0. f_equal. ring.
Qed.

(** X5: The tangle of a state in which the first qubit is not entangled with the
    other two is zero; in particular that of every product state and of every
    basis state. *)
Theorem theoretical_tangle_product (a0 a1 psi0 psi1 psi2 psi3 : complex) :
  theoretical_tangle (product_state a0 a1 psi0 psi1 psi2 psi3) = Ok 0.
Proof.
  unfold product_state.
  rewrite theoretical_tangle_polynomial by (simpl; lia). simpl nth.
  rewrite tangle_polynomial_product, Cabs_0. f_equal. ring.
Qed.

Lemma tangle_polynomial_swap_last (a0 a1 a2 a3 a4 a5 a6 a7 : complex) :
  tangle_polynomial a0 a2 a1 a3 a4 a6 a5 a7 = tangle_polynomial a0 a1 a2 a3 a4 a5 a6 a7.
Proof. cring. Qed.

Lemma tangle_polynomial_swap_first (a0 a1 a2 a3 a4 a5 a6 a7 : complex) :
  tangle_polynomial a0 a1 a4 a5 a2 a3 a6 a7 = tangle_polynomial a0 a1 a2 a3 a4 a5 a6 a7.
Proof. cring. Qed.

(** X6: The tangle does not depend on the order of the three qubits: it is the
    same after the exchange of the last two qubits and after the exchange of
    the first two (which generate all the permutations). *)
Theorem theoretical_tangle_qubit_order (phi : list complex) :
  (8 <= length phi)%nat ->
  theoretical_tangle (swap_last phi) = theoretical_tangle phi /\
  theoretical_tangle (swap_first phi) = theoretical_tangle phi.
Proof.
  intros H. rewrite (theoretical_tangle_polynomial phi H). split.
  - rewrite theoretical_tangle_polynomial by (simpl; lia).
    unfold swap_last. simpl nth. rewrite tangle_polynomial_swap_last. reflexivity.
  - rewrite theoretical_tangle_polynomial by (simpl; lia).
    unfold swap_first. simpl nth. rewrite tangle_polynomial_swap_first. reflexivity.
Qed.

Lemma theoretical_tangle_qubit_order_witness :
  theoretical_tangle (swap_last ghz) = theoretical_tangle ghz /\
  theoretical_tangle (swap_first ghz) = theoretical_tangle ghz.
Proof.
  apply (theoretical_tangle_qubit_order ghz). simpl. lia.
Defined.

(** ** The objective on a parameter vector *)

Lemma firstn_snoc {A : Type} (l : list A) (n : nat) (d : A) :
  (n < length l)%nat -> firstn (Datatypes.S n) l = firstn n l ++ [nth n l d].
Proof.
  revert n. induction l as [| a l IH]; intros n H; simpl in H; [lia |].
  destruct n as [| n]; [reflexivity |].
  change (firstn (Datatypes.S (Datatypes.S n)) (a :: l))
    with (a :: firstn (Datatypes.S n) l).
  rewrite IH by lia. reflexivity.
Qed.

Lemma nth_zip_with_Rmult (a b : list R) (k : nat) :
  (k < length a)%nat -> (k < length b)%nat ->
  nth k (zip_with Rmult a b) 0 = nth k a 0 * nth k b 0.
Proof.
  revert b k. induction a as [| x a IH]; intros [| y b] k Ha Hb; simpl in *; try lia.
  destruct k as [| k]; [reflexivity |]. apply IH; lia.
Qed.

Lemma np_sum_snoc (l : list R) (v : R) : np_sum (l ++ [v]) = np_sum l + v.
Proof.
  unfold np_sum. rewrite fold_left_app. reflexivity.
Qed.

Lemma Forall_nth_length {A : Type} (cs : list (list A)) (n k : nat) :
  Forall (fun c => length c = n) cs -> (k < length cs)%nat ->
  length (nth k cs []) = n.
Proof.
  intros H Hk. rewrite Forall_forall in H. apply H. apply nth_In. assumption.
Qed.

Lemma for_range_eq_from {S : Type} (f : nat -> S) (body : nat -> S -> result S)
    (n : nat) (s : S) :
  s = f 0%nat ->
  (forall i, (i < n)%nat -> body i (f i) = Ok (f (Datatypes.S i))) ->
  for_range n body s = Ok (f n).
Proof.
  intros ->. apply for_range_eq.
Qed.

(** Decoding block [k] of a parameter vector gives back state [k]. *)
Lemma parameter_vector_decode (p : list R) (cs : list (list complex)) (Nc Np k : nat) :
  length p = Np -> length cs = Np -> Forall (fun c => length c = Nc) cs ->
  (k < Np)%nat ->
  real_to_complex
    (slice (parameter_vector p cs) (Np + k * 2 * Nc) (Np + k * 2 * Nc + 2 * Nc))
  = Ok (nth k cs []).
Proof.
  intros Hp Hcs Hall Hk.
  rewrite (parameter_vector_state p cs Nc Np k) by assumption.
  apply real_to_complex_to_real.
Qed.

Lemma parameter_vector_weights (p : list R) (cs : list (list complex)) (Np : nat) :
  length p = Np -> slice (parameter_vector p cs) 0 Np = p.
Proof.
  intros <-. apply slice_prefix.
Qed.

(** X7: On the parameter vector of [Np] weights and [Np] states of dimension
    [Nc >= 8] the objective is the sum of the weights times the tangles of
    the states. *)
Theorem objective_value (p : list R) (cs : list (list complex)) (Nc Np : nat) :
  length p = Np -> length cs = Np -> Forall (fun c => length c = Nc) cs ->
  (8 <= Nc)%nat ->
  objective (parameter_vector p cs) Nc Np
  = Ok (np_sum (zip_with Rmult p (map tangle_value cs))).
Proof.
  intros Hp Hcs Hall HNc. unfold objective. cbv zeta.
  rewrite (parameter_vector_weights p cs Np Hp).
  set (terms := zip_with Rmult p (map tangle_value cs)).
  assert (Hterms : length terms = Np)
    by (unfold terms; rewrite zip_with_length; rewrite ?length_map; congruence).
  rewrite <- (firstn_all terms), Hterms.
  apply (for_range_eq_from (fun n => np_sum (firstn n terms))); [reflexivity |].
  intros i Hi.
  rewrite (parameter_vector_decode p cs Nc Np i) by assumption. cbn [bind].
  rewrite (getitem_nth p i 0) by lia. cbn [bind].
  rewrite theoretical_tangle_polynomial
    by (rewrite (Forall_nth_length cs Nc i); [assumption | assumption | lia]).
  cbn [bind]. f_equal.
  rewrite (firstn_snoc terms i 0) by lia.
  rewrite np_sum_snoc. f_equal.
  unfold terms. rewrite nth_zip_with_Rmult by (rewrite ?length_map; lia).
  f_equal.
  rewrite (nth_indep _ 0 (tangle_value [])) by (rewrite length_map; lia).
  rewrite (map_nth tangle_value cs []). reflexivity.
Qed.

Lemma objective_value_witness :
  objective (parameter_vector [1] [ghz]) 8 1
  = Ok (np_sum (zip_with Rmult [1] (map tangle_value [ghz]))).
Proof.
  apply (objective_value [1] [ghz] 8 1).
  - reflexivity.
  - reflexivity.
  - repeat constructor.
  - lia.
Defined.

Lemma for_range_first_raises {S : Type} (body : nat -> S -> result S) (n : nat)
    (s : S) (e : exn) :
  body 0%nat s = Err e -> for_range (Datatypes.S n) body s = Err e.
Proof.
  intros H. unfold for_range. simpl. rewrite H. reflexivity.
Qed.

(** X8: On a vector of the right length the objective returns exactly when there
    is no state or the states have at least eight components; with fewer it
    raises the index error of the tangle on the first state. *)
Theorem objective_dimension (x : list R) (Nc Np : nat) :
  length x = (Np + 2 * Nc * Np)%nat ->
  ((exists v, objective x Nc Np = Ok v) <-> (Np = 0%nat \/ (8 <= Nc)%nat)) /\
  ((1 <= Np)%nat -> (Nc < 8)%nat ->
   objective x Nc Np = Err (IndexError (if (Nc =? 0)%nat then 0 else 7) Nc)).
Proof.
  intros Hx.
  assert (Hbad : (1 <= Np)%nat -> (Nc < 8)%nat ->
            objective x Nc Np = Err (IndexError (if (Nc =? 0)%nat then 0 else 7) Nc)).
  { intros HNp HNc. unfold objective. cbv zeta.
    destruct Np as [| n]; [lia |].
    apply for_range_first_raises.
    destruct (real_to_complex_even
                (slice x (Datatypes.S n + 0 * 2 * Nc) (Datatypes.S n + 0 * 2 * Nc + 2 * Nc)) Nc)
      as [w [-> Hw]]; [apply (slice_length x _ _ (2 * Nc)); nia |].
    cbn [bind].
    rewrite (getitem_nth _ 0 0)
      by (rewrite (slice_length x 0 (Datatypes.S n) (Datatypes.S n)); lia).
    cbn [bind]. rewrite theoretical_tangle_short by lia.
    rewrite Hw. reflexivity. }
  split; [| exact Hbad]. split.
  - intros [v Hv].
    destruct Np as [| n]; [left; reflexivity | right].
    destruct (Nat.le_gt_cases 8 Nc) as [Hle | Hlt]; [assumption |].
    rewrite Hbad in Hv by lia. discriminate.
  - intros [-> | HNc].
    + exists 0. reflexivity.
    + apply objective_returns; assumption.
Qed.

Lemma objective_dimension_witness :
  ((exists v, objective [1; 0; 0; 0; 0] 2 1 = Ok v) <-> (1%nat = 0%nat \/ (8 <= 2)%nat)) /\
  ((1 <= 1)%nat -> (2 < 8)%nat ->
   objective [1; 0; 0; 0; 0] 2 1 = Err (IndexError (if (2 =? 0)%nat then 0 else 7) 2)).
Proof.
  apply (objective_dimension [1; 0; 0; 0; 0] 2 1). reflexivity.
Defined.

(** ** The constraints on a parameter vector *)

Lemma map_nth_seq {A B : Type} (h : A -> B) (l : list A) (d : A) :
  map (fun i => h (nth i l d)) (seq 0 (length l)) = map h l.
Proof.
  induction l as [| a l IH]; [reflexivity |].
  simpl. f_equal. rewrite <- seq_shift, map_map. exact IH.
Qed.

Lemma norm_nonneg (d : list complex) : 0 <= norm d.
Proof. unfold norm. apply sqrt_pos. Qed.

Lemma unit_norm_residuals (cs : list (list complex)) (n : nat) :
  length cs = n ->
  (map (fun c => 1 - norm c ^ 2) cs = zeros n <-> Forall (fun c => norm c = 1) cs).
Proof.
  revert n. induction cs as [| c cs IH]; intros n Hn; simpl in Hn; subst n.
  - split; [constructor | reflexivity].
  - pose proof (norm_nonneg c) as Hc.
    specialize (IH (length cs) eq_refl).
    change (zeros (Datatypes.S (length cs))) with (0 :: zeros (length cs)).
    cbn [map]. split.
    + intros [= H1 H2]. constructor; [nra | apply IH; assumption].
    + intros H. inversion H as [| ? ? H1 H2]; subst.
      f_equal; [rewrite H1; ring | apply IH; assumption].
Qed.

Lemma cons2_on_parameter_vector (p : list R) (cs : list (list complex)) (Nc Np : nat) :
  length p = Np -> length cs = Np -> Forall (fun c => length c = Nc) cs ->
  cons2 Nc Np (parameter_vector p cs) = Ok (map (fun c => 1 - norm c ^ 2) cs).
Proof.
  intros Hp Hcs Hall. unfold cons2.
  set (g := fun i => 1 - norm (nth i cs []) ^ 2).
  rewrite <- (map_nth_seq (fun c => 1 - norm c ^ 2) cs []), Hcs.
  fold g. rewrite <- (filled_full 0 g Np).
  apply (for_range_eq_from (fun n => filled 0 g n Np));
    [symmetry; apply filled_start |].
  intros i Hi. cbv zeta.
  rewrite (parameter_vector_decode p cs Nc Np i) by assumption. cbn [bind].
  rewrite setitem_in by (rewrite filled_length; lia).
  fold (g i). rewrite update_filled by assumption. reflexivity.
Qed.

Lemma cons2_zero_iff (p : list R) (cs : list (list complex)) (Nc Np : nat) :
  length p = Np -> length cs = Np -> Forall (fun c => length c = Nc) cs ->
  (cons2 Nc Np (parameter_vector p cs) = Ok (zeros Np)
   <-> Forall (fun c => norm c = 1) cs).
Proof.
  intros Hp Hcs Hall.
  rewrite (cons2_on_parameter_vector p cs Nc Np Hp Hcs Hall).
  rewrite <- (unit_norm_residuals cs Np Hcs).
  split; [intros [= H]; exact H | intros ->; reflexivity].
Qed.

(** X9: [cons2] on the parameter vector of [Np] weights and [Np] states of
    dimension [Nc] returns the norm deficit [1 - ||c||^2] of every state, in
    order, for any [Np] and [Nc]; the residual is the zero vector exactly
    when every state has norm one. *)
Theorem cons2_value (p : list R) (cs : list (list complex)) (Nc Np : nat) :
  length p = Np -> length cs = Np -> Forall (fun c => length c = Nc) cs ->
  cons2 Nc Np (parameter_vector p cs) = Ok (map (fun c => 1 - norm c ^ 2) cs) /\
  (cons2 Nc Np (parameter_vector p cs) = Ok (zeros Np)
   <-> Forall (fun c => norm c = 1) cs).
Proof.
  intros Hp Hcs Hall. split.
  - apply cons2_on_parameter_vector; assumption.
  - apply (cons2_zero_iff p cs Nc Np); assumption.
Qed.

Lemma cons2_value_witness :
  cons2 1 1 (parameter_vector [1] [[RtoC 1]])
  = Ok (map (fun c => 1 - norm c ^ 2) [[RtoC 1]]) /\
  (cons2 1 1 (parameter_vector [1] [[RtoC 1]]) = Ok (zeros 1)
   <-> Forall (fun c => norm c = 1) [[RtoC 1]]).
Proof.
  apply (cons2_value [1] [[RtoC 1]] 1 1).
  - reflexivity.
  - reflexivity.
  - repeat constructor.
Defined.

(** [cons3] on a parameter vector, entry by entry in row-major order. *)
Lemma cons3_on_parameter_vector (rho : list (list complex)) (p : list R)
    (cs : list (list complex)) (Nc Np : nat) :
  length p = Np -> length cs = Np -> Forall (fun c => length c = Nc) cs ->
  (Np <= Nc)%nat -> square Nc rho ->
  cons3 rho Nc Np (parameter_vector p cs)
  = Ok (map (fun idx => re (outer_product_sum p cs (idx / Nc) (idx mod Nc)
                            - entry rho (idx / Nc) (idx mod Nc))%C)
            (seq 0 (Nc ^ 2)) ++
        map (fun idx => im (outer_product_sum p cs (idx / Nc) (idx mod Nc)
                            - entry rho (idx / Nc) (idx mod Nc))%C)
            (seq 0 (Nc ^ 2))).
Proof.
  intros Hp Hcs Hall Hle Hrho.
  pose proof (parameter_vector_length p cs Nc Np Hp Hcs Hall) as Hx.
  destruct (cons3_ok rho Nc Np (parameter_vector p cs) Hx Hle Hrho)
    as [c [Hinv ->]].
  destruct Hinv as (_ & _ & Hdec).
  assert (Hrows : forall k, (k < Np)%nat -> nth k c [] = nth k cs []).
  { intros k Hk. specialize (Hdec k Hk).
    rewrite (parameter_vector_decode p cs Nc Np k) in Hdec by assumption.
    injection Hdec as Hdec. symmetry. assumption. }
  assert (Hres : forall idx,
            cons3_residual rho (slice (parameter_vector p cs) 0 Np) c Nc Np idx
            = (outer_product_sum p cs (idx / Nc) (idx mod Nc)
               - entry rho (idx / Nc) (idx mod Nc))%C).
  { intros idx. unfold cons3_residual, entry.
    rewrite (parameter_vector_weights p cs Np Hp).
    rewrite (mixture_ext p c cs) by assumption.
    rewrite <- Hp, mixture_outer_product_sum by congruence. reflexivity. }
  f_equal. f_equal; apply map_ext; intros idx; rewrite Hres; reflexivity.
Qed.

(** X10: [cons3] on the parameter vector of [Np <= Nc] weights and states and an
    [Nc]-by-[Nc] matrix [rho] returns [2 Nc^2] numbers: entry [i * Nc + j] is
    the real part, and entry [Nc^2 + i * Nc + j] the imaginary part, of
    [sum_k p_k c_k[i] conj(c_k[j]) - rho[i, j]]. *)
Theorem cons3_value (rho : list (list complex)) (p : list R)
    (cs : list (list complex)) (Nc Np : nat) :
  length p = Np -> length cs = Np -> Forall (fun c => length c = Nc) cs ->
  (Np <= Nc)%nat -> square Nc rho ->
  exists r,
    cons3 rho Nc Np (parameter_vector p cs) = Ok r /\
    length r = (2 * Nc ^ 2)%nat /\
    forall i j, (i < Nc)%nat -> (j < Nc)%nat ->
      nth (i * Nc + j) r 0 = re (outer_product_sum p cs i j - entry rho i j)%C /\
      nth (Nc ^ 2 + (i * Nc + j)) r 0
      = im (outer_product_sum p cs i j - entry rho i j)%C.
Proof.
  intros Hp Hcs Hall Hle Hrho.
  eexists. split; [apply cons3_on_parameter_vector; assumption |].
  split; [rewrite length_app, !length_map, length_seq; lia |].
  intros i j Hi Hj.
  assert (Hidx : (i * Nc + j < Nc ^ 2)%nat) by (simpl; nia).
  split.
  - rewrite app_nth1 by (rewrite length_map, length_seq; assumption).
    rewrite nth_map_seq by assumption.
    rewrite index_div, index_mod by assumption. reflexivity.
  - rewrite app_nth2 by (rewrite length_map, length_seq; lia).
    rewrite length_map, length_seq.
    replace (Nc ^ 2 + (i * Nc + j) - Nc ^ 2)%nat with (i * Nc + j)%nat by lia.
    rewrite nth_map_seq by assumption.
    rewrite index_div, index_mod by assumption. reflexivity.
Qed.

Lemma cons3_value_witness :
  exists r,
    cons3 [[RtoC 1]] 1 1 (parameter_vector [1] [[RtoC 1]]) = Ok r /\
    length r = (2 * 1 ^ 2)%nat /\
    forall i j, (i < 1)%nat -> (j < 1)%nat ->
      nth (i * 1 + j) r 0
      = re (outer_product_sum [1] [[RtoC 1]] i j - entry [[RtoC 1]] i j)%C /\
      nth (1 ^ 2 + (i * 1 + j)) r 0
      = im (outer_product_sum [1] [[RtoC 1]] i j - entry [[RtoC 1]] i j)%C.
Proof.
  apply (cons3_value [[RtoC 1]] [1] [[RtoC 1]] 1 1).
  - reflexivity.
  - reflexivity.
  - repeat constructor.
  - lia.
  - split; [reflexivity | repeat constructor].
Defined.

Lemma complex_parts_zero (z w : complex) :
  re (z - w)%C = 0 -> im (z - w)%C = 0 -> w = z.
Proof.
  destruct z as [a b], w as [c d]. simpl. intros H1 H2.
  f_equal; lra.
Qed.

Lemma zero_vector_parts (f g : nat -> R) (n idx : nat) :
  map f (seq 0 n) ++ map g (seq 0 n) = zeros (2 * n) ->
  (idx < n)%nat -> f idx = 0 /\ g idx = 0.
Proof.
  intros H Hidx. split.
  - rewrite <- (nth_map_seq f n idx 0 Hidx).
    rewrite <- (app_nth1 _ (map g (seq 0 n)) 0)
      by (rewrite length_map, length_seq; assumption).
    rewrite H. apply nth_repeat.
  - rewrite <- (nth_map_seq g n idx 0 Hidx).
    replace idx with (n + idx - length (map f (seq 0 n)))%nat at 1
      by (rewrite length_map, length_seq; lia).
    rewrite <- (app_nth2 (map f (seq 0 n)) _ 0)
      by (rewrite length_map, length_seq; lia).
    rewrite H. apply nth_repeat.
Qed.

(** X11: The reconstruction constraint is met exactly by the decompositions of
    [rho]: [cons3] returns the zero vector if and only if every entry of
    [rho] is the weighted sum of the outer products of the states. *)
Theorem cons3_zero_iff (rho : list (list complex)) (p : list R)
    (cs : list (list complex)) (Nc Np : nat) :
  length p = Np -> length cs = Np -> Forall (fun c => length c = Nc) cs ->
  (Np <= Nc)%nat -> square Nc rho ->
  (cons3 rho Nc Np (parameter_vector p cs) = Ok (zeros (2 * Nc ^ 2))
   <-> forall i j, (i < Nc)%nat -> (j < Nc)%nat ->
         entry rho i j = outer_product_sum p cs i j).
Proof.
  intros Hp Hcs Hall Hle Hrho. split.
  - intros Hzero i j Hi Hj.
    rewrite cons3_on_parameter_vector in Hzero by assumption.
    injection Hzero as Hzero.
    destruct (zero_vector_parts _ _ _ (i * Nc + j) Hzero) as [Hre Him];
      [simpl; nia |].
    rewrite index_div, index_mod in Hre, Him by assumption.
    apply complex_parts_zero; assumption.
  - intros Heq. rewrite cons3_on_parameter_vector by assumption.
    assert (Hz : forall idx, (idx < Nc ^ 2)%nat ->
              (outer_product_sum p cs (idx / Nc) (idx mod Nc)
               - entry rho (idx / Nc) (idx mod Nc))%C = RtoC 0).
    { intros idx Hidx.
      assert (HNc : Nc <> 0%nat) by (intros ->; simpl in Hidx; lia).
      rewrite Heq; [apply Csub_diag | |].
      - apply Nat.Div0.div_lt_upper_bound. simpl in Hidx. lia.
      - apply Nat.mod_upper_bound. assumption. }
    rewrite !map_seq_zero by (intros idx Hidx; rewrite Hz by assumption; reflexivity).
    unfold zeros. rewrite <- repeat_app. f_equal. f_equal. lia.
Qed.

Lemma cons3_zero_iff_witness :
  cons3 [[RtoC 1]] 1 1 (parameter_vector [1] [[RtoC 1]]) = Ok (zeros (2 * 1 ^ 2))
  <-> forall i j, (i < 1)%nat -> (j < 1)%nat ->
        entry [[RtoC 1]] i j = outer_product_sum [1] [[RtoC 1]] i j.
Proof.
  apply (cons3_zero_iff [[RtoC 1]] [1] [[RtoC 1]] 1 1).
  - reflexivity.
  - reflexivity.
  - repeat constructor.
  - lia.
  - split; [reflexivity | repeat constructor].
Defined.

(** ** The starting points *)

Lemma start_state_length (rng : nat -> R) (Nc s : nat) :
  length (start_state rng Nc s) = Nc.
Proof.
  unfold start_state, raw_state.
  rewrite length_map, zip_with_length; rewrite !length_map, !length_seq; reflexivity.
Qed.

Lemma start_states_shape (rng : nat -> R) (Nc Np s : nat) :
  length (start_states rng Nc Np s) = Np /\
  Forall (fun c => length c = Nc) (start_states rng Nc Np s).
Proof.
  unfold start_states. split.
  - rewrite length_map, length_seq. reflexivity.
  - apply Forall_map, Forall_forall. intros k _. apply start_state_length.
Qed.

Lemma start_weights_length (rng : nat -> R) (Np s : nat) :
  length (start_weights rng Np s) = Np.
Proof.
  unfold start_weights. rewrite !length_map, length_seq. reflexivity.
Qed.

Lemma slice_prefix_length {A : Type} (a b : list A) (n : nat) :
  length a = n -> slice (a ++ b) 0 n = a.
Proof.
  intros <-. apply slice_prefix.
Qed.

Lemma finite_unless_zero_nonzero (d : R) (l : list R) :
  d <> 0 -> finite_unless_zero d l = map Finite l.
Proof.
  intros H. unfold finite_unless_zero.
  destruct (Req_EM_T d 0); [contradiction | reflexivity].
Qed.

Lemma finite_unless_zero_zero (d : R) (l : list R) :
  d = 0 -> finite_unless_zero d l = repeat NonFinite (length l).
Proof.
  intros H. unfold finite_unless_zero.
  destruct (Req_EM_T d 0); [| contradiction].
  induction l as [| a l IH]; simpl; [reflexivity | rewrite IH; reflexivity].
Qed.

Lemma finite_unless_zero_length (d : R) (l : list R) :
  length (finite_unless_zero d l) = length l.
Proof.
  unfold finite_unless_zero. destruct (Req_EM_T d 0); apply length_map.
Qed.

(** The starting point: the weights divided by their sum, then the block of
    every state. *)
Lemma initial_point_value (rng : nat -> R) (Nc Np s : nat) :
  initial_point rng Nc Np s
  = Ok (finite_unless_zero (np_sum (map rng (seq s Np))) (start_weights rng Np s)
        ++ concat (map (fun k => start_block rng Nc (s + Np + k * (Nc + Nc)))
                       (seq 0 Np)),
        (s + draws Nc Np)%nat).
Proof.
  unfold initial_point, random_sample.
  fold (start_weights rng Np s).
  set (w := finite_unless_zero (np_sum (map rng (seq s Np))) (start_weights rng Np s)).
  set (bl := fun k => start_block rng Nc (s + Np + k * (Nc + Nc))).
  replace (s + draws Nc Np)%nat with (s + Np + Np * (Nc + Nc))%nat
    by (unfold draws; lia).
  apply (for_range_eq_from
           (fun k => (w ++ concat (map bl (seq 0 k)),
                      (s + Np + k * (Nc + Nc))%nat))).
  - simpl. rewrite app_nil_r. f_equal. lia.
  - intros k Hk.
    rewrite broadcast_same by (rewrite !length_map, !length_seq; reflexivity).
    cbn [bind]. f_equal. f_equal; [| lia].
    rewrite seq_S, map_app, concat_app, app_assoc. simpl.
    rewrite app_nil_r. reflexivity.
Qed.

Lemma start_point_value (rng : nat -> R) (Nc Np j : nat) :
  start_point rng Nc Np j
  = finite_unless_zero (np_sum (map rng (seq (j * draws Nc Np) Np)))
                       (start_weights rng Np (j * draws Nc Np))
    ++ concat (map (fun k => start_block rng Nc (j * draws Nc Np + Np + k * (Nc + Nc)))
                   (seq 0 Np)).
Proof.
  unfold start_point. rewrite initial_point_value. reflexivity.
Qed.

Lemma start_block_length (rng : nat -> R) (Nc s : nat) :
  length (start_block rng Nc s) = (2 * Nc)%nat.
Proof.
  unfold start_block.
  rewrite finite_unless_zero_length, complex_to_real_length, start_state_length.
  reflexivity.
Qed.

Lemma start_blocks_finite (rng : nat -> R) (Nc Np s : nat) :
  (forall k, (k < Np)%nat -> norm (raw_state rng Nc (s + Np + k * (Nc + Nc))) <> 0) ->
  concat (map (fun k => start_block rng Nc (s + Np + k * (Nc + Nc))) (seq 0 Np))
  = map Finite (concat (map complex_to_real (start_states rng Nc Np s))).
Proof.
  intros H. unfold start_states. rewrite concat_map, !map_map.
  f_equal. apply map_ext_in. intros k Hk. apply in_seq in Hk.
  unfold start_block. apply finite_unless_zero_nonzero. apply H. lia.
Qed.

(** With a sum of the weight draws and norms of the drawn vectors that are
    not zero, the starting point is the finite parameter vector of the
    normalised weights and the normalised states. *)
Lemma start_point_finite (rng : nat -> R) (Nc Np j : nat) :
  np_sum (map rng (seq (j * draws Nc Np) Np)) <> 0 ->
  (forall k, (k < Np)%nat ->
     norm (raw_state rng Nc (j * draws Nc Np + Np + k * (Nc + Nc))) <> 0) ->
  start_point rng Nc Np j
  = map Finite (parameter_vector (start_weights rng Np (j * draws Nc Np))
                                 (start_states rng Nc Np (j * draws Nc Np))).
Proof.
  intros HS Hn. rewrite start_point_value.
  rewrite finite_unless_zero_nonzero by assumption.
  rewrite start_blocks_finite by assumption.
  unfold parameter_vector. rewrite map_app. reflexivity.
Qed.

Lemma fold_left_Rplus_div (l : list R) (a S : R) :
  fold_left Rplus (map (fun v => v / S) l) (a / S) = fold_left Rplus l a / S.
Proof.
  revert a. induction l as [| v l IH]; intros a; simpl; [reflexivity |].
  replace (a / S + v / S) with ((a + v) / S) by (unfold Rdiv; ring).
  apply IH.
Qed.

Lemma np_sum_div (l : list R) (S : R) :
  np_sum (map (fun v => v / S) l) = np_sum l / S.
Proof.
  unfold np_sum. rewrite <- fold_left_Rplus_div.
  f_equal. unfold Rdiv. ring.
Qed.

Lemma fold_left_Rplus_nonneg (l : list R) (a : R) :
  Forall (fun v => 0 <= v) l -> 0 <= a -> 0 <= fold_left Rplus l a.
Proof.
  intros H. revert a. induction H as [| v l Hv _ IH]; intros a Ha; simpl.
  - assumption.
  - apply IH. lra.
Qed.

Lemma norm_sqr (d : list complex) :
  norm d * norm d = np_sum (map (fun z => re z * re z + im z * im z) d).
Proof.
  unfold norm. apply sqrt_sqrt. unfold np_sum.
  apply fold_left_Rplus_nonneg; [| lra].
  apply Forall_map, Forall_forall. intros z _. nra.
Qed.

(** A vector divided by its norm has norm one. *)
Lemma norm_normalised (c : list complex) :
  norm c <> 0 -> norm (map (fun z => Cdiv z (RtoC (norm c))) c) = 1.
Proof.
  intros Hn. pose proof (norm_sqr c) as Hsq.
  unfold norm at 1. rewrite map_map.
  rewrite (map_ext _ (fun z => (re z * re z + im z * im z) / (norm c * norm c))).
  - rewrite <- (map_map (fun z => re z * re z + im z * im z)
                        (fun v => v / (norm c * norm c))).
    rewrite np_sum_div, <- Hsq.
    replace (norm c * norm c / (norm c * norm c)) with 1 by (field; assumption).
    apply sqrt_1.
  - intros z. unfold Cdiv, RtoC. simpl. field. nra.
Qed.

(** X15: The starting point of every start, the lower bounds and the upper bounds
    have the same length [Np + 2 Nc Np]. *)
Theorem start_point_shape (rng : nat -> R) (Nc Np j : nat) :
  length (start_point rng Nc Np j) = (Np + 2 * Nc * Np)%nat /\
  length (lower_bounds (bounds Nc Np)) = (Np + 2 * Nc * Np)%nat /\
  length (upper_bounds (bounds Nc Np)) = (Np + 2 * Nc * Np)%nat.
Proof.
  split; [| split].
  - rewrite start_point_value, length_app, finite_unless_zero_length,
      start_weights_length.
    rewrite (concat_blocks_length _ (2 * Nc)).
    + rewrite length_map, length_seq. lia.
    + apply Forall_map, Forall_forall. intros k _. apply start_block_length.
  - unfold bounds. simpl. rewrite length_map, length_seq. reflexivity.
  - unfold bounds. simpl. rewrite length_map, length_seq. reflexivity.
Qed.

(** X16: The starting point of start [j] meets the weight constraint exactly
    as soon as the sum of its [Np] draws is not zero: its first [Np] entries
    are finite, and [cons1], which reads these entries only, is zero on them
    whatever follows. *)
Theorem start_point_weights_sum (rng : nat -> R) (Nc Np j : nat) :
  np_sum (map rng (seq (j * draws Nc Np) Np)) <> 0 ->
  exists p,
    slice (start_point rng Nc Np j) 0 Np = map Finite p /\
    forall rest, cons1 Np (p ++ rest) = 0.
Proof.
  intros HS. exists (start_weights rng Np (j * draws Nc Np)). split.
  - rewrite start_point_value, finite_unless_zero_nonzero by assumption.
    apply slice_prefix_length.
    rewrite length_map. apply start_weights_length.
  - intros rest. unfold cons1.
    rewrite slice_prefix_length by apply start_weights_length.
    unfold start_weights. rewrite np_sum_div. field. assumption.
Qed.

Lemma start_point_weights_sum_witness :
  exists p,
    slice (start_point (fun _ => 1 / 2) 8 1 0) 0 1 = map Finite p /\
    forall rest, cons1 1 (p ++ rest) = 0.
Proof.
  apply (start_point_weights_sum (fun _ => 1 / 2) 8 1 0).
  unfold np_sum. simpl. lra.
Defined.

(** X17: The starting point of start [j] meets the norm constraints exactly
    as soon as none of its [Np] drawn vectors is the zero vector: its entries
    after the weights are finite and encode [Np] states on which [cons2],
    which reads these entries only, is the zero vector whatever the [Np]
    weights in front. *)
Theorem start_point_unit_norms (rng : nat -> R) (Nc Np j : nat) :
  (forall k, (k < Np)%nat ->
     norm (raw_state rng Nc (j * draws Nc Np + Np + k * (Nc + Nc))) <> 0) ->
  exists cs,
    skipn Np (start_point rng Nc Np j)
    = map Finite (concat (map complex_to_real cs)) /\
    forall p, length p = Np ->
      cons2 Nc Np (parameter_vector p cs) = Ok (zeros Np).
Proof.
  intros Hnorm. exists (start_states rng Nc Np (j * draws Nc Np)). split.
  - rewrite start_point_value, start_blocks_finite by assumption.
    rewrite skipn_app, skipn_all2
      by (rewrite finite_unless_zero_length, start_weights_length; lia).
    rewrite finite_unless_zero_length, start_weights_length, Nat.sub_diag.
    reflexivity.
  - intros p Hp.
    destruct (start_states_shape rng Nc Np (j * draws Nc Np)) as [Hlen Hall].
    apply (cons2_zero_iff p (start_states rng Nc Np (j * draws Nc Np)) Nc Np);
      [assumption | assumption | assumption |].
    unfold start_states.
    apply Forall_map, Forall_forall. intros k Hk. apply in_seq in Hk.
    unfold start_state. apply norm_normalised. apply Hnorm. lia.
Qed.

Lemma start_point_unit_norms_witness :
  exists cs,
    skipn 1 (start_point (fun _ => 1) 1 1 0)
    = map Finite (concat (map complex_to_real cs)) /\
    forall p, length p = 1%nat ->
      cons2 1 1 (parameter_vector p cs) = Ok (zeros 1).
Proof.
  apply (start_point_unit_norms (fun _ => 1) 1 1 0).
  intros k Hk. assert (k = 0%nat) as -> by lia.
  unfold norm, np_sum, raw_state. simpl.
  apply Rgt_not_eq, sqrt_lt_R0. lra.
Defined.

(** ** The result as a minimum *)

Lemma xle_refl (v : xreal) : xle v v.
Proof. destruct v; simpl; auto. lra. Qed.

Lemma xle_trans (u v w : xreal) : xle u v -> xle v w -> xle u w.
Proof.
  destruct u, v, w; simpl; auto; try contradiction. lra.
Qed.

Lemma xmin_le_l (v w : xreal) : xle (xmin v w) v.
Proof.
  destruct v as [| a |], w as [| b |]; simpl; auto; try lra. apply Rmin_l.
Qed.

Lemma xmin_le_r (v w : xreal) : xle (xmin v w) w.
Proof.
  destruct v as [| a |], w as [| b |]; simpl; auto; try lra. apply Rmin_r.
Qed.

Lemma xmin_choice (v w : xreal) : xmin v w = v \/ xmin v w = w.
Proof.
  destruct v as [| a |], w as [| b |]; simpl; auto.
  unfold Rmin. destruct (Rle_dec a b); auto.
Qed.

Lemma fold_xmin_spec (a : list xreal) (v : xreal) :
  (fold_left xmin a v = v \/ In (fold_left xmin a v) a) /\
  xle (fold_left xmin a v) v /\
  Forall (xle (fold_left xmin a v)) a.
Proof.
  revert v. induction a as [| w a IH]; intros v; simpl.
  - split; [left; reflexivity | split; [apply xle_refl | constructor]].
  - destruct (IH (xmin v w)) as (Hin & Hle & Hall).
    split; [| split].
    + destruct Hin as [Heq | Hin]; [| right; right; assumption].
      rewrite Heq. destruct (xmin_choice v w) as [-> | ->]; auto.
    + apply (xle_trans _ (xmin v w)); [assumption | apply xmin_le_l].
    + constructor; [| assumption].
      apply (xle_trans _ (xmin v w)); [assumption | apply xmin_le_r].
Qed.

(** [np.min] of a non-empty array is one of its entries and is below all of
    them. *)
Lemma np_min_spec (a : list xreal) (m : xreal) :
  np_min a = Ok m -> In m a /\ Forall (xle m) a.
Proof.
  destruct a as [| v a]; simpl; [discriminate |].
  intros [= <-]. destruct (fold_xmin_spec a v) as (Hin & Hle & Hall).
  split; [destruct Hin as [-> | Hin]; auto |].
  constructor; assumption.
Qed.

Lemma recorded_value (v previous : xreal) :
  nonneg_or_inf v -> recorded (Ok v) previous = v.
Proof.
  intros H. apply xlt0_nonneg in H. unfold recorded. rewrite H. reflexivity.
Qed.

(** X22: When the solver returns on every one of the [N >= 1] starts, with a
    non-negative value or infinity, [three_tangle] returns the smallest of
    these values: the value of one of the starts, below that of every
    start. *)
Theorem three_tangle_is_minimum (minimize : problem -> result xreal)
    (rng : nat -> R) (rho : list (list complex)) (N : nat) (error : R)
    (Nc Np : nat) (so : option solver_options) (vals : nat -> xreal) :
  (1 <= N)%nat ->
  (forall j, (j < N)%nat ->
     start_outcome minimize rng rho error Nc Np (options_or_default so) j
     = Ok (vals j) /\ nonneg_or_inf (vals j)) ->
  exists m,
    three_tangle minimize rng rho N error Nc Np so = Ok m /\
    (exists j, (j < N)%nat /\ m = vals j) /\
    (forall j, (j < N)%nat -> xle m (vals j)).
Proof.
  intros HN Hvals. rewrite three_tangle_eq.
  rewrite (map_ext_in _ vals).
  - destruct (np_min (map vals (seq 0 N))) as [m | e] eqn:Hmin.
    + exists m. split; [reflexivity |].
      apply np_min_spec in Hmin as [Hin Hall]. split.
      * apply in_map_iff in Hin as [j [Hj Hin]]. apply in_seq in Hin.
        exists j. split; [lia | congruence].
      * intros j Hj. rewrite Forall_forall in Hall. apply Hall.
        apply in_map, in_seq. lia.
    + destruct N as [| n]; [lia | discriminate Hmin].
  - intros j Hj. apply in_seq in Hj.
    destruct (Hvals j) as [-> Hv]; [lia |].
    apply recorded_value. assumption.
Qed.

Lemma three_tangle_is_minimum_witness :
  exists m,
    three_tangle (constant_solver (Fin 1)) (fun _ => 0) [] 1 0 8 4 None = Ok m /\
    (exists j, (j < 1)%nat /\ m = Fin 1) /\
    (forall j, (j < 1)%nat -> xle m (Fin 1)).
Proof.
  apply (three_tangle_is_minimum (constant_solver (Fin 1)) (fun _ => 0) []
           1 0 8 4 None (fun _ => Fin 1)).
  - lia.
  - intros j Hj. split; [reflexivity | simpl; lra].
Defined.

(** X23: One more start, with the same draws and the same solver, can only lower
    the result. *)
Theorem three_tangle_more_starts (minimize : problem -> result xreal)
    (rng : nat -> R) (rho : list (list complex)) (n : nat) (error : R)
    (Nc Np : nat) (so : option solver_options) :
  exists m m',
    three_tangle minimize rng rho (Datatypes.S n) error Nc Np so = Ok m /\
    three_tangle minimize rng rho (Datatypes.S (Datatypes.S n)) error Nc Np so = Ok m' /\
    xle m' m.
Proof.
  rewrite !three_tangle_eq.
  set (g := fun j => recorded (start_outcome minimize rng rho error Nc Np
                                 (options_or_default so) j) (Fin 0)).
  rewrite (seq_S (Datatypes.S n)), map_app.
  destruct (map g (seq 0 (Datatypes.S n))) as [| v a] eqn:Hl;
    [discriminate Hl |].
  simpl. rewrite fold_left_app. simpl.
  eexists. eexists. split; [reflexivity | split; [reflexivity |]].
  apply xmin_le_l.
Qed.

(** ** Layout of the codec *)

Lemma nth_zip_with_Cx (xs ys : list R) (i : nat) :
  (i < length xs)%nat -> (i < length ys)%nat ->
  nth i (zip_with Cx xs ys) (RtoC 0) = Cx (nth i xs 0) (nth i ys 0).
Proof.
  revert ys i. induction xs as [| a xs IH]; intros [| b ys] i Hx Hy; simpl in *; try lia.
  destruct i as [| i]; [reflexivity |]. apply IH; lia.
Qed.

(** X13: The codec keeps the real parts in the first half and the imaginary parts
    in the second half (it does not interleave them): decoding a vector of
    length [2 k] gives [k] numbers, the one of index [i] being
    [v[i] + 1j * v[k + i]], and encoding [w] puts [re w[i]] at index [i] and
    [im w[i]] at index [len(w) + i]. *)
Theorem codec_layout :
  (forall (v : list R) (k : nat), length v = (2 * k)%nat ->
     exists w, real_to_complex v = Ok w /\ length w = k /\
       forall i, (i < k)%nat -> nth i w (RtoC 0) = Cx (nth i v 0) (nth (k + i) v 0)) /\
  (forall (w : list complex) (i : nat), (i < length w)%nat ->
     length (complex_to_real w) = (2 * length w)%nat /\
     nth i (complex_to_real w) 0 = re (nth i w (RtoC 0)) /\
     nth (length w + i) (complex_to_real w) 0 = im (nth i w (RtoC 0))).
Proof.
  split.
  - intros v k Hv.
    destruct (even_length_halves v) as [xs [ys [-> Hlen]]]; [exists k; assumption |].
    rewrite length_app in Hv.
    exists (zip_with Cx xs ys). split; [apply real_to_complex_app; assumption |].
    split; [rewrite zip_with_length by assumption; lia |].
    intros i Hi. rewrite nth_zip_with_Cx by lia.
    rewrite app_nth1 by lia.
    replace k with (length xs) by lia. rewrite app_nth2_plus. reflexivity.
  - intros w i Hi. split; [apply complex_to_real_length |].
    unfold complex_to_real. split.
    + rewrite app_nth1 by (rewrite length_map; assumption).
      apply (map_nth re w (RtoC 0)).
    + rewrite <- (length_map re w) at 1. rewrite app_nth2_plus.
      apply (map_nth im w (RtoC 0)).
Qed.

Lemma codec_layout_witness :
  exists w, real_to_complex [1; 2; 3; 4] = Ok w /\ length w = 2%nat /\
    forall i, (i < 2)%nat ->
      nth i w (RtoC 0) = Cx (nth i [1; 2; 3; 4] 0) (nth (2 + i) [1; 2; 3; 4] 0).
Proof.
  apply (proj1 codec_layout [1; 2; 3; 4] 2%nat). reflexivity.
Defined.

(** ** Shape of the constraint blocks *)

Lemma cons2_returns (Nc Np : nat) (x : list R) :
  length x = (Np + 2 * Nc * Np)%nat ->
  exists r, cons2 Nc Np x = Ok r /\ length r = Np.
Proof.
  intros Hx. unfold cons2.
  apply (for_range_invariant (fun _ (r : list R) => length r = Np)).
  - apply repeat_length.
  - intros i r Hi Hr. cbv zeta.
    destruct (real_to_complex_even
                (slice x (Np + i * 2 * Nc) (Np + i * 2 * Nc + 2 * Nc)) Nc)
      as [w [-> _]]; [apply (slice_length x _ _ (2 * Nc)); nia |].
    cbn [bind]. rewrite setitem_in by lia.
    eexists. split; [reflexivity |]. rewrite update_length. assumption.
Qed.

(** X14: On a vector of length [Np + 2 Nc Np], with [Np <= Nc] and an
    [Nc]-by-[Nc] matrix [rho], every one of the three constraint blocks
    returns as many residuals as it has lower bounds and upper bounds: one,
    [Np] and [2 Nc^2]. *)
Theorem constraints_shape (rho : list (list complex)) (error : R) (Nc Np : nat)
    (x : list R) :
  length x = (Np + 2 * Nc * Np)%nat -> (Np <= Nc)%nat -> square Nc rho ->
  map (fun c => length (con_lb c)) (constraints rho error Nc Np)
  = [1; Np; 2 * Nc ^ 2]%nat /\
  Forall (fun c => exists r, con_fun c x = Ok r /\
                     length r = length (con_lb c) /\
                     length r = length (con_ub c))
         (constraints rho error Nc Np).
Proof.
  intros Hx Hle Hrho. unfold constraints. split.
  - cbn [map con_lb length]. rewrite !repeat_length. reflexivity.
  - repeat constructor; cbn [con_fun con_lb con_ub].
    + eexists. split; [reflexivity | split; reflexivity].
    + destruct (cons2_returns Nc Np x Hx) as [r [Hr Hlen]].
      exists r. rewrite !repeat_length. auto.
    + destruct (cons3_ok rho Nc Np x Hx Hle Hrho) as [c [_ Hr]].
      eexists. split; [exact Hr |].
      rewrite !repeat_length, length_app, !length_map, length_seq.
      split; lia.
Qed.

Lemma constraints_shape_witness :
  map (fun c => length (con_lb c)) (constraints [[RtoC 1]] 0 1 1)
  = [1; 1; 2 * 1 ^ 2]%nat /\
  Forall (fun c => exists r, con_fun c [1; 1; 0] = Ok r /\
                     length r = length (con_lb c) /\
                     length r = length (con_ub c))
         (constraints [[RtoC 1]] 0 1 1).
Proof.
  apply (constraints_shape [[RtoC 1]] 0 1 1 [1; 1; 0]).
  - reflexivity.
  - lia.
  - split; [reflexivity | repeat constructor].
Defined.

(** ** The starting points and the bounds *)

Lemma div_between (q n : R) : 0 < n -> - n <= q <= n -> -1 <= q / n <= 1.
Proof.
  intros Hn Hq. unfold Rdiv.
  pose proof (Rinv_0_lt_compat n Hn) as Hi.
  pose proof (Rinv_r n (Rgt_not_eq _ _ Hn)) as Hr.
  split; nra.
Qed.

Lemma fold_left_Rplus_ge_acc (l : list R) (a : R) :
  Forall (fun v => 0 <= v) l -> a <= fold_left Rplus l a.
Proof.
  intros H. revert a. induction H as [| v l Hv _ IH]; intros a; simpl; [lra |].
  specialize (IH (a + v)). lra.
Qed.

Lemma fold_left_Rplus_ge_entry (l : list R) (a v : R) :
  Forall (fun u => 0 <= u) l -> 0 <= a -> In v l -> v <= fold_left Rplus l a.
Proof.
  intros H. revert a.
  induction H as [| u l Hu Hl IH]; intros a Ha Hin; [contradiction |].
  simpl. destruct Hin as [-> | Hin].
  - pose proof (fold_left_Rplus_ge_acc l (a + v) Hl). lra.
  - apply IH; [lra | assumption].
Qed.

Lemma np_sum_ge_entry (l : list R) (v : R) :
  Forall (fun u => 0 <= u) l -> In v l -> v <= np_sum l.
Proof.
  intros H Hin. apply fold_left_Rplus_ge_entry; [assumption | lra | assumption].
Qed.

Lemma start_weights_range (rng : nat -> R) (Np s : nat) :
  (forall n, 0 <= rng n) ->
  np_sum (map rng (seq s Np)) <> 0 ->
  Forall (fun w => 0 <= w <= 1) (start_weights rng Np s).
Proof.
  intros Hrng HS. unfold start_weights.
  set (l := map rng (seq s Np)) in *.
  assert (Hl : Forall (fun u => 0 <= u) l)
    by (apply Forall_map, Forall_forall; intros n _; apply Hrng).
  assert (Hpos : 0 < np_sum l).
  { pose proof (fold_left_Rplus_ge_acc l 0 Hl) as H. unfold np_sum in *. lra. }
  apply Forall_map, Forall_forall. intros v Hv.
  pose proof (np_sum_ge_entry l v Hl Hv) as Hle.
  rewrite Forall_forall in Hl. specialize (Hl v Hv).
  pose proof (div_between v (np_sum l) Hpos) as Hd.
  split; [apply Rmult_le_pos; [assumption | left; apply Rinv_0_lt_compat; assumption] |].
  apply Hd. lra.
Qed.

Lemma start_state_range (rng : nat -> R) (Nc s : nat) :
  norm (raw_state rng Nc s) <> 0 ->
  Forall (fun v => -1 <= v <= 1) (complex_to_real (start_state rng Nc s)).
Proof.
  intros Hn. unfold start_state.
  set (c := raw_state rng Nc s) in *.
  assert (Hpos : 0 < norm c) by (pose proof (norm_nonneg c); lra).
  assert (Hz : forall z, In z c ->
            re z * re z + im z * im z <= norm c * norm c).
  { intros z Hz. rewrite norm_sqr.
    apply np_sum_ge_entry.
    - apply Forall_map, Forall_forall. intros w _. nra.
    - apply (in_map (fun z => re z * re z + im z * im z)). assumption. }
  unfold complex_to_real. apply Forall_app. rewrite !map_map.
  split; apply Forall_map, Forall_forall; intros z Hin; specialize (Hz z Hin);
    unfold Cdiv, RtoC; simpl.
  - replace ((re z * norm c + im z * 0) / (norm c * norm c + 0 * 0))
      with (re z / norm c) by (field; lra).
    apply div_between; [assumption | split; nra].
  - replace ((im z * norm c - re z * 0) / (norm c * norm c + 0 * 0))
      with (im z / norm c) by (field; lra).
    apply div_between; [assumption | split; nra].
Qed.

Lemma nth_bounds (Nc Np i : nat) :
  (i < Np + 2 * Nc * Np)%nat ->
  nth i (lower_bounds (bounds Nc Np)) 0 = (if (i <? Np)%nat then 0 else -1) /\
  nth i (upper_bounds (bounds Nc Np)) 0 = 1.
Proof.
  intros Hi. unfold bounds. simpl lower_bounds. simpl upper_bounds.
  rewrite !nth_map_seq by assumption.
  split; [reflexivity | destruct (i <? Np)%nat; reflexivity].
Qed.

(** X18: When the draws are non-negative, their sum is not zero and no drawn
    vector is the zero vector, the starting point of start [j] is finite and
    lies within the bounds handed to the solver, entry by entry: the weights
    in [[0, 1]] and the coefficients in [[-1, 1]]. *)
Theorem start_point_within_bounds (rng : nat -> R) (Nc Np j : nat) :
  (forall n, 0 <= rng n) ->
  np_sum (map rng (seq (j * draws Nc Np) Np)) <> 0 ->
  (forall k, (k < Np)%nat ->
     norm (raw_state rng Nc (j * draws Nc Np + Np + k * (Nc + Nc))) <> 0) ->
  exists x0,
    start_point rng Nc Np j = map Finite x0 /\
    forall i, (i < Np + 2 * Nc * Np)%nat ->
      nth i (lower_bounds (bounds Nc Np)) 0 <= nth i x0 0
      <= nth i (upper_bounds (bounds Nc Np)) 0.
Proof.
  intros Hrng HS Hnorm.
  eexists. split; [apply start_point_finite; assumption |].
  intros i Hi.
  destruct (nth_bounds Nc Np i Hi) as [-> ->].
  unfold parameter_vector.
  set (s := (j * draws Nc Np)%nat) in *.
  pose proof (start_weights_range rng Np s Hrng HS) as Hw.
  pose proof (start_weights_length rng Np s) as Hlw.
  assert (Hc : Forall (fun v => -1 <= v <= 1)
                 (concat (map complex_to_real (start_states rng Nc Np s)))).
  { apply Forall_concat, Forall_map. unfold start_states.
    apply Forall_map, Forall_forall. intros k Hk. apply in_seq in Hk.
    apply start_state_range. apply Hnorm. lia. }
  destruct (i <? Np)%nat eqn:HiNp.
  - apply Nat.ltb_lt in HiNp. rewrite app_nth1 by lia.
    rewrite Forall_nth in Hw. apply Hw. lia.
  - apply Nat.ltb_ge in HiNp. rewrite app_nth2 by lia.
    rewrite Forall_nth in Hc. apply Hc.
    destruct (start_states_shape rng Nc Np s) as [Hlen Hall].
    rewrite (concat_blocks_length _ (2 * Nc)) by (apply encoded_blocks; assumption).
    rewrite length_map, Hlen. lia.
Qed.

Lemma start_point_within_bounds_witness :
  exists x0,
    start_point (fun _ => 1) 1 1 0 = map Finite x0 /\
    forall i, (i < 1 + 2 * 1 * 1)%nat ->
      nth i (lower_bounds (bounds 1 1)) 0 <= nth i x0 0
      <= nth i (upper_bounds (bounds 1 1)) 0.
Proof.
  apply (start_point_within_bounds (fun _ => 1) 1 1 0).
  - intros n. lra.
  - unfold np_sum. simpl. lra.
  - intros k Hk. assert (k = 0%nat) as -> by lia.
    unfold norm, np_sum, raw_state. simpl.
    apply Rgt_not_eq, sqrt_lt_R0. lra.
Defined.

(** ** A matrix with too few rows *)

(** X12: [rho] is not validated: with fewer than [Nc] rows (each of [Nc]
    entries), [cons3] fills the residuals of the rows that exist and raises
    the index error of the first missing row. *)
Theorem cons3_short_rho (rho : list (list complex)) (Nc Np : nat) (x : list R) :
  length x = (Np + 2 * Nc * Np)%nat -> (Np <= Nc)%nat ->
  (length rho < Nc)%nat -> Forall (fun row => length row = Nc) rho ->
  cons3 rho Nc Np x = Err (IndexError (length rho) (length rho)).
Proof.
  intros Hx Hle Hshort Hrows.
  destruct (cons3_states_ok Nc Np x Hx Hle) as [c [Hc (Hlen & Hcrows & _)]].
  unfold cons3. cbv zeta. rewrite Hc. cbn [bind].
  set (p := slice x 0 Np).
  assert (Hp : length p = Np) by (apply (slice_length x 0 Np Np); lia).
  unfold cons3_entries.
  rewrite (for_range_split _ (length rho) Nc) by lia.
  set (gr := fun idx => re (cons3_residual rho p c Nc Np idx)).
  set (gi := fun idx => im (cons3_residual rho p c Nc Np idx)).
  set (T := (Nc ^ 2)%nat).
  assert (HT : T = (Nc * Nc)%nat) by (unfold T; simpl; lia).
  match goal with
  | |- context [for_range (length rho) ?body ?init] =>
      assert (Hprefix : for_range (length rho) body init
                        = Ok (filled 0 gr (length rho * Nc) T,
                              filled 0 gi (length rho * Nc) T))
  end.
  { apply (for_range_eq_from
             (fun i => (filled 0 gr (i * Nc) T, filled 0 gi (i * Nc) T)));
      [simpl; rewrite !filled_start; reflexivity |].
    intros i Hi.
    replace (Datatypes.S i * Nc)%nat with (i * Nc + Nc)%nat by lia.
    apply (for_range_eq_from
             (fun j => (filled 0 gr (i * Nc + j) T, filled 0 gi (i * Nc + j) T)));
      [rewrite Nat.add_0_r; reflexivity |].
    intros j Hj.
    rewrite (cons3_entry_ok Np p c Nc i j); [| assumption | lia | | lia | assumption];
      [| intros k Hk; apply Hcrows; lia].
    cbn [bind].
    rewrite (getitem2_nth rho i j (RtoC 0));
      [| assumption | rewrite (Forall_nth_length rho Nc i); assumption].
    cbn [bind]. cbv zeta.
    rewrite !setitem_in by (rewrite filled_length; nia).
    cbn [bind].
    assert (Hres : (mixture p c Np i j - nth j (nth i rho []) (RtoC 0))%C
                   = cons3_residual rho p c Nc Np (i * Nc + j)).
    { unfold cons3_residual. rewrite index_div, index_mod by assumption. reflexivity. }
    rewrite Hres.
    change (re (cons3_residual rho p c Nc Np (i * Nc + j))) with (gr (i * Nc + j)%nat).
    change (im (cons3_residual rho p c Nc Np (i * Nc + j))) with (gi (i * Nc + j)%nat).
    rewrite !update_filled by nia.
    replace (i * Nc + Datatypes.S j)%nat with (Datatypes.S (i * Nc + j)) by lia.
    reflexivity. }
  rewrite Hprefix. cbn [bind].
  replace (Nc - length rho)%nat with (Datatypes.S (Nc - length rho - 1)) by lia.
  cbn [seq for_each].
  destruct Nc as [| n]; [lia |].
  rewrite (for_range_first_raises _ n _ (IndexError (length rho) (length rho)));
    [reflexivity |].
  rewrite (cons3_entry_ok Np p c (Datatypes.S n) (length rho) 0);
    [| assumption | lia | | lia | lia];
    [| intros k Hk; apply Hcrows; lia].
  cbn [bind]. unfold getitem2.
  rewrite getitem_out by lia. reflexivity.
Qed.

Lemma cons3_short_rho_witness :
  cons3 [] 1 1 [1; 1; 0]
  = Err (IndexError (length (@nil (list complex))) (length (@nil (list complex)))).
Proof.
  apply (cons3_short_rho [] 1 1 [1; 1; 0]).
  - reflexivity.
  - lia.
  - simpl. lia.
  - constructor.
Defined.

(** ** The starts, one by one *)

(** X21: Whatever the solver does, raising included, the loop over the starts
    does not raise: it returns an array of exactly [N] entries, each a
    non-negative real number or infinity. *)
Theorem run_starts_returns (minimize : problem -> result xreal) (rng : nat -> R)
    (rho : list (list complex)) (N : nat) (error : R) (Nc Np : nat)
    (options : solver_options) :
  exists tangles,
    run_starts minimize rng rho N error Nc Np options = Ok tangles /\
    length tangles = N /\
    Forall nonneg_or_inf tangles.
Proof.
  eexists. split; [apply run_starts_ok |]. split.
  - rewrite length_map, length_seq. reflexivity.
  - apply Forall_map, Forall_forall. intros j _. apply recorded_nonneg.
Qed.

Lemma raw_state_ext (rng rng' : nat -> R) (Nc s : nat) :
  (forall n, (s <= n < s + (Nc + Nc))%nat -> rng n = rng' n) ->
  raw_state rng Nc s = raw_state rng' Nc s.
Proof.
  intros H. unfold raw_state.
  rewrite (map_ext_in rng rng' (seq s Nc))
    by (intros n Hn; apply in_seq in Hn; apply H; lia).
  rewrite (map_ext_in rng rng' (seq (s + Nc) Nc))
    by (intros n Hn; apply in_seq in Hn; apply H; lia).
  reflexivity.
Qed.

(** X19: Start [j] reads the draws [j d .. (j + 1) d - 1] of the generator, where
    [d = Np + 2 Nc Np], and no other: two streams that agree on them give the
    same starting point. *)
Theorem start_point_draws (rng rng' : nat -> R) (Nc Np j : nat) :
  (forall n, (j * draws Nc Np <= n < (j + 1) * draws Nc Np)%nat -> rng n = rng' n) ->
  start_point rng Nc Np j = start_point rng' Nc Np j.
Proof.
  intros H. rewrite !start_point_value.
  set (s := (j * draws Nc Np)%nat) in *.
  assert (Hd : ((j + 1) * draws Nc Np = s + Np + Np * (Nc + Nc))%nat)
    by (unfold s, draws; lia).
  f_equal.
  - unfold start_weights.
    rewrite (map_ext_in rng rng' (seq s Np))
      by (intros n Hn; apply in_seq in Hn; apply H; lia).
    reflexivity.
  - f_equal. apply map_ext_in. intros k Hk. apply in_seq in Hk.
    unfold start_block, start_state.
    rewrite (raw_state_ext rng rng' Nc (s + Np + k * (Nc + Nc))); [reflexivity |].
    intros n Hn. apply H. nia.
Qed.

Lemma start_point_draws_witness :
  start_point (fun _ => 1) 1 1 0
  = start_point (fun n => if (n <? 3)%nat then 1 else 0) 1 1 0.
Proof.
  apply (start_point_draws (fun _ => 1) (fun n => if (n <? 3)%nat then 1 else 0) 1 1 0).
  intros n Hn. unfold draws in Hn. simpl in Hn.
  destruct (n <? 3)%nat eqn:E; [reflexivity |].
  apply Nat.ltb_ge in E. lia.
Defined.

(** X20: With states of at least eight components, non-negative draws, a sum
    of the weight draws that is not zero and no drawn vector that is the zero
    vector, the starting point of every start is finite, and the objective
    is defined and non-negative there. *)
Theorem objective_at_start_point (rng : nat -> R) (Nc Np j : nat) :
  (8 <= Nc)%nat ->
  (forall n, 0 <= rng n) ->
  np_sum (map rng (seq (j * draws Nc Np) Np)) <> 0 ->
  (forall k, (k < Np)%nat ->
     norm (raw_state rng Nc (j * draws Nc Np + Np + k * (Nc + Nc))) <> 0) ->
  exists x0 v,
    start_point rng Nc Np j = map Finite x0 /\
    objective x0 Nc Np = Ok v /\ 0 <= v.
Proof.
  intros HNc Hrng HS Hnorm.
  set (s := (j * draws Nc Np)%nat) in *.
  set (x0 := parameter_vector (start_weights rng Np s) (start_states rng Nc Np s)).
  assert (Hlen : length x0 = (Np + 2 * Nc * Np)%nat).
  { destruct (start_states_shape rng Nc Np s) as [Hl Hall].
    apply parameter_vector_length; [apply start_weights_length | assumption | assumption]. }
  destruct (objective_returns x0 Nc Np HNc Hlen) as [v Hv].
  exists x0, v. split; [apply start_point_finite; assumption |].
  split; [assumption |].
  apply (objective_nonneg x0 Nc Np v); [| assumption].
  intros i Hi. unfold x0, parameter_vector.
  rewrite app_nth1 by (rewrite start_weights_length; assumption).
  pose proof (start_weights_range rng Np s Hrng HS) as Hw.
  rewrite Forall_nth in Hw. apply Hw. rewrite start_weights_length. assumption.
Qed.

Lemma objective_at_start_point_witness :
  exists x0 v,
    start_point (fun _ => 1) 8 1 0 = map Finite x0 /\
    objective x0 8 1 = Ok v /\ 0 <= v.
Proof.
  apply (objective_at_start_point (fun _ => 1) 8 1 0).
  - lia.
  - intros n. lra.
  - unfold np_sum. simpl. lra.
  - intros k Hk. assert (k = 0%nat) as -> by lia.
    unfold norm, np_sum, raw_state. simpl.
    apply Rgt_not_eq, sqrt_lt_R0. lra.
Defined.

(** ** Zero divisors in the starting point *)

Lemma slice_app_skip_length {A : Type} (a b : list A) (n i j : nat) :
  length a = n -> slice (a ++ b) (n + i) (n + j) = slice b i j.
Proof.
  intros <-. apply slice_app_skip.
Qed.



(** X25: The division of a drawn vector by its norm is not guarded: when the
    vector drawn for state [k] of a start is the zero vector, the [2 Nc]
    entries of the starting point that encode this state are not finite. *)
Theorem start_point_zero_vector (rng : nat -> R) (Nc Np j k : nat) :
  (k < Np)%nat ->
  norm (raw_state rng Nc (j * draws Nc Np + Np + k * (Nc + Nc))) = 0 ->
  slice (start_point rng Nc Np j) (Np + k * (2 * Nc)) (Np + (k * (2 * Nc) + 2 * Nc))
  = repeat NonFinite (2 * Nc).
Proof.
  intros Hk Hn. rewrite start_point_value.
  rewrite slice_app_skip_length
    by (rewrite finite_unless_zero_length; apply start_weights_length).
  rewrite slice_concat.
  - rewrite (nth_indep _ [] (start_block rng Nc (j * draws Nc Np + Np + 0 * (Nc + Nc))))
      by (rewrite length_map, length_seq; assumption).
    rewrite (map_nth (fun k => start_block rng Nc (j * draws Nc Np + Np + k * (Nc + Nc)))
               (seq 0 Np) 0%nat).
    rewrite seq_nth by assumption. simpl Nat.add at 1.
    unfold start_block. rewrite finite_unless_zero_zero by assumption.
    rewrite complex_to_real_length, start_state_length. reflexivity.
  - apply Forall_map, Forall_forall. intros i _. apply start_block_length.
  - rewrite length_map, length_seq. assumption.
Qed.

Lemma start_point_zero_vector_witness :
  slice (start_point (fun _ => 1 / 2) 1 1 0) (1 + 0 * (2 * 1)) (1 + (0 * (2 * 1) + 2 * 1))
  = repeat NonFinite (2 * 1).
Proof.
  apply (start_point_zero_vector (fun _ => 1 / 2) 1 1 0 0).
  - lia.
  - unfold norm, np_sum, raw_state. simpl.
    match goal with
    | |- sqrt ?e = 0 => replace e with 0 by lra
    end.
    apply sqrt_0.
Defined.
